(** * metaseq/cli/interactive_cli.py: the batch generation loop

    A shallow embedding of [worker_main] and [make_caninical_smiles] of
    [metaseq/cli/interactive_cli.py], together with the Python operations
    they rely on: true division of integers followed by [math.ceil],
    list repetition, ["\n".join], the bare [try/except], a file system
    keyed by path, and the external services (the generator, the SELFIES
    decoder, RDKit, parmap, the broadcast primitive) as an explicit
    environment. *)

From Stdlib Require Import ZArith Lia String Ascii List Bool.
From stdpp Require Import base gmap strings list.

Local Open Scope string_scope.
Local Open Scope Z_scope.

(* ===================================================================== *)
(** ** Python results: a value or a raised exception *)
(* ===================================================================== *)

Inductive exn : Type :=
| ZeroDivisionError
| OverflowError
| TypeError
| IndexError
| SystemExit (code : Z)
| ServiceError (what : string).

Inductive result (A : Type) : Type :=
| Ok (a : A)
| Raise (e : exn).

Arguments Ok {A} a.
Arguments Raise {A} e.

(** Sequencing of computations that may raise. *)
Definition and_then {A B} (r : result A) (f : A -> result B) : result B :=
  match r with
  | Ok a => f a
  | Raise e => Raise e
  end.

(* ===================================================================== *)
(** ** [math.ceil(a / b)] on Python integers *)
(* ===================================================================== *)

Module PyNum.

(** True division of two [int]s gives the float nearest to the exact
    quotient (ties to even), and [math.ceil] of a float gives an [int]
    again. A finite binary64 value is [(-1)^fneg * fmant * 2^fexp]. *)
Record float : Type := mkfloat { fneg : bool; fmant : Z; fexp : Z }.

(** The integer nearest to [n / d], ties to even ([0 <= n], [0 < d]). *)
Definition round_half_even (n d : Z) : Z :=
  let q := n / d in
  let r := n mod d in
  if 2 * r <? d then q
  else if d <? 2 * r then q + 1
  else if Z.even q then q else q + 1.

(** [a / b < 2^e], for positive [a] and [b] and any integer [e]. *)
Definition ratio_lt_pow2 (a b e : Z) : bool :=
  if 0 <=? e then a <? b * 2 ^ e else a * 2 ^ (- e) <? b.

(** The exponent [e] with [2^e <= a / b < 2^(e+1)], for positive [a], [b]. *)
Definition floor_log2_ratio (a b : Z) : Z :=
  let e0 := Z.log2 a - Z.log2 b in
  if ratio_lt_pow2 a b e0 then e0 - 1 else e0.

(** The quotient of two positive integers rounded to 53 significant bits
    (to the fixed quantum [2^-1074] in the subnormal range), as mantissa
    and exponent. *)
Definition pos_truediv (a b : Z) : Z * Z :=
  let e := floor_log2_ratio a b in
  let x := Z.max (e - 52) (-1074) in
  let m := if 0 <=? x then round_half_even a (b * 2 ^ x)
           else round_half_even (a * 2 ^ (- x)) b in
  (m, x).

(** [a / b] on two [int]s: the correctly rounded quotient;
    [ZeroDivisionError] on a zero divisor, [OverflowError] when the
    rounded quotient does not fit a float. *)
Definition int_truediv (a b : Z) : result float :=
  if b =? 0 then Raise ZeroDivisionError
  else if a =? 0 then Ok (mkfloat (b <? 0) 0 0)
  else
    let '(m, x) := pos_truediv (Z.abs a) (Z.abs b) in
    if 2 ^ 1024 <=? m * 2 ^ (Z.max x 0) then Raise OverflowError
    else Ok (mkfloat (xorb (a <? 0) (b <? 0)) m x).

(** [math.ceil(f)] for a finite float. *)
Definition math_ceil (f : float) : Z :=
  let m := fmant f in
  let x := fexp f in
  if fneg f then
    (if 0 <=? x then - (m * 2 ^ x) else - (m / 2 ^ (- x)))
  else
    (if 0 <=? x then m * 2 ^ x else - ((- m) / 2 ^ (- x))).

(** [math.ceil(a / b)]. *)
Definition ceil_truediv (a b : Z) : result Z :=
  and_then (int_truediv a b) (fun f => Ok (math_ceil f)).

End PyNum.


(* ===================================================================== *)
(** ** Data: requests, generations, configuration *)
(* ===================================================================== *)

(** The keyword arguments of [generator.generate], the dict
    [request_object]. *)
Module Req.
Record t : Type := mk {
  inputs : list (list Z);
  max_tokens : option Z;
  min_tokens : list Z;
  temperature : PyNum.float;
  top_p : PyNum.float;
  logprobs : Z;
  n : Z;
  best_of : option Z;
  echo : bool;
  stop : option Z;
  seed : Z;
  use_cuda : bool
}.
End Req.

(** One candidate of one prompt slot, a dict with (among others) the key
    ["text"]; [generate] returns a list of candidates per slot. *)
Record Candidate : Type := mkCandidate { text : string; tokens : list string }.

Definition Generations : Type := list (list Candidate).

(** The fields of [cfg] that [worker_main] reads. *)
Module Cfg.
Record t : Type := mk {
  batch_size : Z;                 (* cfg.dataset.batch_size *)
  seed : Z;                       (* cfg.common.seed *)
  output_file_path : string;      (* cfg.generation.output_file_path *)
  temperature : PyNum.float;      (* cfg.generation.temperature *)
  sampling_topp : PyNum.float;    (* cfg.generation.sampling_topp *)
  logprobs : Z;                   (* cfg.generation.logprobs *)
  beam : Z;                       (* cfg.generation.beam *)
  generation_len : Z;             (* cfg.generation.generation_len *)
  mol_repr : string;              (* cfg.generation.mol_repr *)
  distributed_rank : Z            (* cfg.distributed_training.distributed_rank *)
}.
End Cfg.

(** The external services, as the process sees them. [generate k r] is
    the result of the [k]-th call of [generator.generate] in this process
    (the generator samples, so the result depends on the call);
    [pool k] tells whether [parmap.map] as a whole gets through in
    round [k] or raises, whatever its items do. *)
Record World : Type := mkWorld {
  mol : Type;
  generate : nat -> Req.t -> result Generations;
  sf_decoder : string -> result string;
  MolFromSmiles : string -> result (option mol);
  MolToSmiles : option mol -> result string;
  pool : nat -> result unit
}.

(* ===================================================================== *)
(** ** Effects: the trace, the file system, the broadcast inbox *)
(* ===================================================================== *)

Inductive Event : Type :=
| EGeneratorInterface                       (* GeneratorInterface(cfg) *)
| ELoadModel                                (* generator.load_model() *)
| ELogLoaded (rank : Z)                     (* logger.info("loaded model ...") *)
| EBroadcast (v : option Req.t)             (* broadcast_object on the source rank *)
| EReceive (v : option Req.t)               (* broadcast_object on another rank *)
| EExists (path : string) (found : bool)    (* os.path.exists *)
| EPrint (s : string)                       (* print of a string *)
| EPrintRequest (r : Req.t)                 (* print(request_object) *)
| EOpen (path : string)                     (* open(path, "wt+") *)
| EGenerate (r : option Req.t)              (* generator.generate, keywords r *)
| EWrite (s : string).                      (* csv_file.write(s) *)

(** What a process can touch: the files by path, and the values that
    rank 0 publishes and this process has still to receive. *)
Record Proc : Type := mkProc {
  fs : gmap string string;
  inbox : list (option Req.t)
}.

(** How a piece of the program ends: it returns, it raises, or it waits
    for ever on a broadcast that is never published. *)
Inductive Outcome (A : Type) : Type :=
| Returned (a : A)
| Raised (e : exn)
| Blocked.

Arguments Returned {A} a.
Arguments Raised {A} e.
Arguments Blocked {A}.

Record Run (A : Type) : Type := mkRun {
  trace : list Event;
  final : Proc;
  outcome : Outcome A
}.

Arguments mkRun {A} trace final outcome.
Arguments trace {A} r.
Arguments final {A} r.
Arguments outcome {A} r.

Definition M (A : Type) : Type := Proc -> Run A.

Definition ret {A} (a : A) : M A := fun st => mkRun [] st (Returned a).

Definition bind {A B} (m : M A) (f : A -> M B) : M B := fun st =>
  let r := m st in
  match outcome r with
  | Returned a => let r' := f a (final r) in
                  mkRun (trace r ++ trace r') (final r') (outcome r')
  | Raised e => mkRun (trace r) (final r) (Raised e)
  | Blocked => mkRun (trace r) (final r) Blocked
  end.

Declare Scope py_scope.
Delimit Scope py_scope with py.
Notation "x <- m ;;; k" := (bind m (fun x => k))
  (at level 100, m at next level, right associativity) : py_scope.
Notation "m ;;; k" := (bind m (fun _ => k))
  (at level 100, right associativity) : py_scope.
Local Open Scope py_scope.

Definition emit (e : Event) : M unit := fun st => mkRun [e] st (Returned tt).

Definition raise {A} (e : exn) : M A := fun st => mkRun [] st (Raised e).

(** A pure computation that may raise. *)
Definition lift {A} (r : result A) : M A := fun st =>
  mkRun [] st (match r with Ok a => Returned a | Raise e => Raised e end).

(** [try: m  except: h] with a bare [except], which catches every
    exception. *)
Definition try_except {A} (m h : M A) : M A := fun st =>
  let r := m st in
  match outcome r with
  | Raised _ => let r' := h (final r) in
                mkRun (trace r ++ trace r') (final r') (outcome r')
  | _ => r
  end.

(** [for x in xs: body x]. *)
Fixpoint for_each {A} (xs : list A) (body : A -> M unit) : M unit :=
  match xs with
  | [] => ret tt
  | x :: xs' => body x ;;; for_each xs' body
  end.

(** [map] of a function that may raise, left to right. *)
Fixpoint map_result {A B} (f : A -> result B) (xs : list A) : result (list B) :=
  match xs with
  | [] => Ok []
  | x :: xs' =>
      and_then (f x) (fun y =>
      and_then (map_result f xs') (fun ys => Ok (y :: ys)))
  end.

(* ===================================================================== *)
(** ** Python strings and lists *)
(* ===================================================================== *)

(** The one-character string ["\n"]. *)
Definition nl : string := String "010"%char EmptyString.

(** [sep.join(xs)] raises [TypeError] at an item that is not a [str];
    the items here are [str] or [None]. *)
Definition expect_str (o : option string) : result string :=
  match o with
  | Some s => Ok s
  | None => Raise TypeError
  end.

Definition join (sep : string) (xs : list (option string)) : result string :=
  and_then (map_result expect_str xs) (fun ss => Ok (String.concat sep ss)).

(** [[x] * n]: empty when [n] is not positive. Python refuses a length
    that is no index ([OverflowError] from [2^63] on) and may run out
    of memory below that; the model covers the lengths Python builds. *)
Definition list_repeat {A} (x : A) (n : Z) : list A := replicate (Z.to_nat n) x.

(** [range(n)]: empty when [n] is not positive. *)
Definition range (n : Z) : list nat := seq 0 (Z.to_nat n).

(** The lines of a text, each ended by a newline (the last one possibly
    not): how the output file is read back. *)
Fixpoint lines (s : string) : list string :=
  match s with
  | EmptyString => []
  | String c s' =>
      if Ascii.eqb c "010" then EmptyString :: lines s'
      else match lines s' with
           | [] => [String c EmptyString]
           | l :: ls => String c l :: ls
           end
  end.

(** No newline inside the string. *)
Fixpoint one_line (s : string) : bool :=
  match s with
  | EmptyString => true
  | String c s' => negb (Ascii.eqb c "010") && one_line s'
  end.

(* ===================================================================== *)
(** ** The external calls as effects *)
(* ===================================================================== *)

(** [os.path.exists(path)]. *)
Definition os_path_exists (path : string) : M bool := fun st =>
  let found := bool_decide (is_Some (fs st !! path)) in
  mkRun [EExists path found] st (Returned found).

(** [open(path, "wt+")]: the file is created, or truncated. The handle is
    identified with its path. *)
Definition open_wt (path : string) : M string := fun st =>
  mkRun [EOpen path] (mkProc (<[path := EmptyString]> (fs st)) (inbox st)) (Returned path).

(** [csv_file.write(s)]: appends to the open file. Buffering is not
    modelled: what is written is in the file. *)
Definition file_write (handle : string) (s : string) : M unit := fun st =>
  let old := default EmptyString (fs st !! handle) in
  mkRun [EWrite s] (mkProc (<[handle := (old ++ s)%string]> (fs st)) (inbox st)) (Returned tt).

(** [generator.generate] with the keyword arguments of [request_object]:
    unpacking [None] is a [TypeError]. [k] counts the calls made so far. *)
Definition generator_generate (w : World) (k : nat) (request_object : option Req.t)
  : M Generations :=
  emit (EGenerate request_object) ;;;
  lift (match request_object with
        | Some r => generate w k r
        | None => Raise TypeError
        end).

(** [distributed_utils.broadcast_object(obj, src_rank=0, group=...)] as
    the process of rank [rank] runs it: rank 0 publishes [obj]; every
    other rank blocks until the next published value arrives and returns
    it. *)
Definition broadcast_object (rank : nat) (obj : option Req.t) : M (option Req.t) :=
  match rank with
  | O => emit (EBroadcast obj) ;;; ret obj
  | S _ => fun st =>
      match inbox st with
      | [] => mkRun [] st Blocked
      | v :: rest => mkRun [EReceive v] (mkProc (fs st) rest) (Returned v)
      end
  end.

(** [parmap.map(f, xs, pm_processes=6)]: the results in the order of
    [xs]; an exception of [f], or of the pool itself, is raised in the
    caller. *)
Definition parmap_map {A B} (w : World) (k : nat) (f : A -> result B) (xs : list A)
  : M (list B) :=
  lift (and_then (pool w k) (fun _ => map_result f xs)).

(* ===================================================================== *)
(** ** The program *)
(* ===================================================================== *)

(** [make_caninical_smiles]: the decoder call is outside the [try], the
    two RDKit calls are inside; the bare [except] leaves [canon_smiles]
    at [None]. The function runs in a process of the pool and has no
    effect of its own. *)
Definition make_caninical_smiles (w : World) (selfies : string) : result (option string) :=
  let canon_smiles := None in
  and_then (sf_decoder w selfies) (fun smiles =>
    match and_then (MolFromSmiles w smiles) (MolToSmiles w) with
    | Ok s => Ok (Some s)
    | Raise _ => Ok canon_smiles
    end).

(** [x[0]["text"]]. *)
Definition first_text (x : list Candidate) : result string :=
  match x with
  | [] => Raise IndexError
  | c :: _ => Ok (text c)
  end.

(** [not torch.distributed.is_initialized() or get_rank() == 0]; the rank
    is [None] when the process group is not initialized. *)
Definition is_coordinator (rank : option nat) : bool :=
  match rank with
  | None => true
  | Some r => Nat.eqb r 0
  end.

Definition build_request (cfg : Cfg.t) : Req.t :=
  let batch_size := Cfg.batch_size cfg in
  let seed := Cfg.seed cfg in
  let prompt := list_repeat ([] : list Z) batch_size in
  Req.mk prompt None (list_repeat 1 batch_size)
         (Cfg.temperature cfg) (Cfg.sampling_topp cfg) (Cfg.logprobs cfg)
         (Cfg.beam cfg) None false None seed true.

(** The body of the [for] loop of the coordinator, round [i]. *)
Definition round (w : World) (cfg : Cfg.t) (csv_file : string)
    (request_object : Req.t) (i : nat) : M unit :=
  generations <- generator_generate w i (Some request_object) ;;;
  smiles_batch <- lift (map_result first_text generations) ;;;
  if String.eqb (Cfg.mol_repr cfg) "smiles" then
    file_write csv_file (String.concat nl smiles_batch ++ nl)
  else
    try_except
      (canon_smiles_batch <- parmap_map w i (make_caninical_smiles w) smiles_batch ;;;
       block <- lift (join nl canon_smiles_batch) ;;;
       file_write csv_file (block ++ nl))
      (ret tt).

(** The [while True] loop of the other ranks. [pending] is the inbox at
    the start of the iteration: the loop is unfolded once per value still
    to be received, and with none left [broadcast_object] blocks. [k]
    counts the [generate] calls made so far. *)
Fixpoint worker_loop (w : World) (rank : nat) (k : nat)
    (pending : list (option Req.t)) : M unit :=
  match pending with
  | [] => broadcast_object rank None ;;; ret tt
  | _ :: pending' =>
      request_object <- broadcast_object rank None ;;;
      generator_generate w k request_object ;;;
      worker_loop w rank (S k) pending'
  end.

(** [worker_main] as the process of rank [rank] runs it ([None]: the
    process group is not initialized). The two [manual_seed] calls only
    reseed torch and are left out, and so is the progress bar of [tqdm],
    which advances once per round whatever the round does; [tqdm] takes
    the length of the range first, which Python refuses from [2^63]
    rounds on ([OverflowError]), so the model covers fewer rounds. *)
Definition worker_main (w : World) (cfg : Cfg.t) (rank : option nat) : M unit :=
  emit EGeneratorInterface ;;;
  emit ELoadModel ;;;
  emit (ELogLoaded (Cfg.distributed_rank cfg)) ;;;
  (match rank with
   | Some r => broadcast_object r None ;;; ret tt
   | None => ret tt
   end) ;;;
  if is_coordinator rank then
    let batch_size := Cfg.batch_size cfg in
    let file_path := Cfg.output_file_path cfg in
    found <- os_path_exists file_path ;;;
    (if found : bool then
       emit (EPrint (file_path ++ " already exists")) ;;; raise (SystemExit 1)
     else ret tt) ;;;
    csv_file <- open_wt file_path ;;;
    let request_object := build_request cfg in
    emit (EPrintRequest request_object) ;;;
    rounds <- lift (PyNum.ceil_truediv (Cfg.generation_len cfg) batch_size) ;;;
    for_each (range rounds) (round w cfg csv_file request_object) ;;;
    emit (EPrint ("Saved in " ++ file_path ++ "."))
  else
    let r := default O rank in
    (fun st => worker_loop w r O (inbox st) st).

(** The exit status of the process, when it ends. *)
Definition exit_code (r : Outcome unit) : option Z :=
  match r with
  | Returned _ => Some 0
  | Raised (SystemExit c) => Some c
  | Raised _ => Some 1
  | Blocked => None
  end.

(* ===================================================================== *)
(** ** Reading a trace *)
(* ===================================================================== *)

(** The requests of the [generator.generate] calls, in order. *)
Definition generate_calls (t : list Event) : list (option Req.t) :=
  omap (fun e => match e with EGenerate r => Some r | _ => None end) t.

(** The blocks written to the output file, in order. *)
Definition writes (t : list Event) : list string :=
  omap (fun e => match e with EWrite s => Some s | _ => None end) t.

(** The values published on the broadcast channel, in order. *)
Definition broadcasts (t : list Event) : list (option Req.t) :=
  omap (fun e => match e with EBroadcast v => Some v | _ => None end) t.

(** The paths checked with [os.path.exists], in order. *)
Definition exists_checks (t : list Event) : list string :=
  omap (fun e => match e with EExists p _ => Some p | _ => None end) t.

(** What an operator can read: the log and the standard output. *)
Definition is_report (e : Event) : bool :=
  match e with
  | ELogLoaded _ | EPrint _ | EPrintRequest _ => true
  | _ => false
  end.

(** Touching the model: building the handle, loading, generating. *)
Definition is_model_event (e : Event) : bool :=
  match e with
  | EGeneratorInterface | ELoadModel | EGenerate _ => true
  | _ => false
  end.

(** Touching the output file. *)
Definition is_file_event (e : Event) : bool :=
  match e with
  | EOpen _ | EWrite _ => true
  | _ => false
  end.

(** The text ends a line: it is empty or its last character is a
    newline. *)
Fixpoint terminated (s : string) : bool :=
  match s with
  | EmptyString => true
  | String c s' =>
      match s' with
      | EmptyString => Ascii.eqb c "010"
      | String _ _ => terminated s'
      end
  end.

(** The first candidates of two results carry the same text, slot by
    slot. *)
Definition same_first_texts (g g' : Generations) : Prop :=
  Forall2 (fun x y => option_map text (head x) = option_map text (head y)) g g'.

(** The world [w] with another generator. *)
Definition with_generate (w : World) (g : nat -> Req.t -> result Generations) : World :=
  mkWorld (mol w) g (sf_decoder w) (MolFromSmiles w) (MolToSmiles w) (pool w).

(** The generation service answers every request with one non-empty
    list of candidates per prompt, the first of them a single line. *)
Definition one_per_prompt (w : World) : Prop :=
  forall k r, exists gens,
    generate w k r = Ok gens /\
    length gens = length (Req.inputs r) /\
    Forall (fun x => exists c, head x = Some c /\ one_line (text c) = true) gens.

(** RDKit's canonical strings are single lines. *)
Definition canonical_one_line (w : World) : Prop :=
  forall m s, MolToSmiles w m = Ok s -> one_line s = true.

(** The file system after [csv_file.write(s)]. *)
Definition appended (csv s : string) (st : Proc) : Proc :=
  mkProc (<[csv := (default EmptyString (fs st !! csv) ++ s)%string]> (fs st)) (inbox st).

(** What the [try] block of round [i] computes before it writes. *)
Definition validate (w : World) (i : nat) (texts : list string) : result string :=
  and_then (and_then (pool w i) (fun _ => map_result (make_caninical_smiles w) texts))
           (join nl).

(** The events of the round loop of a run with request [req]. *)
Definition round_event (req : Req.t) (e : Event) : Prop :=
  e = EGenerate (Some req) \/ exists s, e = EWrite s.

(** What every process does before the roles split. *)
Definition startup (cfg : Cfg.t) (rank : option nat) : list Event :=
  [EGeneratorInterface; ELoadModel; ELogLoaded (Cfg.distributed_rank cfg)]
  ++ match rank with
     | Some O => [EBroadcast None]
     | _ => []
     end.

Definition already_exists (cfg : Cfg.t) : string :=
  Cfg.output_file_path cfg ++ " already exists".

Definition saved_in (cfg : Cfg.t) : string :=
  "Saved in " ++ Cfg.output_file_path cfg ++ ".".

(** The state once the output file is open. *)
Definition opened (cfg : Cfg.t) (st : Proc) : Proc :=
  mkProc (<[Cfg.output_file_path cfg := EmptyString]> (fs st)) (inbox st).

(* ===================================================================== *)
(** ** Statements about whole rounds and runs *)
(* ===================================================================== *)

(** Round [i] of a run in validate mode gets through its [try] block. *)
Definition stage_ok (w : World) (req : Req.t) (i : nat) : bool :=
  match generate w i req with
  | Ok gens =>
      match map_result first_text gens with
      | Ok texts => match validate w i texts with Ok _ => true | Raise _ => false end
      | Raise _ => false
      end
  | Raise _ => false
  end.

(** The number of rounds, among those of indices [idx], whose block
    reaches the file. *)
Definition persisted (w : World) (cfg : Cfg.t) (idx : list nat) : nat :=
  if String.eqb (Cfg.mol_repr cfg) "smiles" then length idx
  else length (filter (fun i => stage_ok w (build_request cfg) i = true) idx).

(** Rounds and lines as the specification words them: the exact ceiling
    of [generation_len / batch_size] many rounds, [batch_size] prompts in
    each request, and that many rounds times [batch_size] lines in the
    file of a run that completes. *)
Definition rounds_and_lines_as_stated
    (w : World) (cfg : Cfg.t) (rank : option nat) (st : Proc) : Prop :=
  let r := worker_main w cfg rank st in
  let bs := Cfg.batch_size cfg in
  let rounds := (Cfg.generation_len cfg + bs - 1) / bs in
  length (generate_calls (trace r)) = Z.to_nat rounds /\
  Forall (fun v => exists q, v = Some q /\ Z.of_nat (length (Req.inputs q)) = bs)
         (generate_calls (trace r)) /\
  (outcome r = Returned tt ->
   exists file, fs (final r) !! Cfg.output_file_path cfg = Some file /\
                Z.of_nat (length (lines file)) = rounds * bs).

(** The order the specification asks for: nothing of the model before
    the existence check. *)
Definition guard_before_model (t : list Event) : Prop :=
  forall pre post path found,
    t = (pre ++ EExists path found :: post)%list ->
    Forall (fun e => is_model_event e = false) pre.

(** A round whose validation stage fails, as the specification words
    it: nothing of the round is written, the round returns so that the
    loop goes on, and the drop can be seen: a log or print event in the
    round, or a change of the state of the process. *)
Definition dropped_round_reported
    (w : World) (cfg : Cfg.t) (csv : string) (req : Req.t) (i : nat) (st : Proc) : Prop :=
  let r := round w cfg csv req i st in
  writes (trace r) = [] /\
  outcome r = Returned tt /\
  (Exists (fun e => is_report e = true) (trace r) \/ final r <> st).

(* ===================================================================== *)
(** ** Example services and configurations *)
(* ===================================================================== *)

(** Stand-ins for the services, for the examples in which the answers
    of the decoder and of RDKit play no part (pass-through mode, a
    [parmap.map] that raises) or only have to exist. The answers of the
    real services on given texts are in [Observed] below. *)
Module Examples.

Definition temperature_1 : PyNum.float := PyNum.mkfloat false 1 0.
Definition topp_0_8 : PyNum.float := PyNum.mkfloat false 3602879701896397 (-52).

Definition cfg_of (batch_size generation_len : Z) (mol_repr : string) : Cfg.t :=
  Cfg.mk batch_size 3 "out.csv" temperature_1 topp_0_8 0 1 generation_len mol_repr 0.

(** RDKit reduced to two answers: the text parses to a molecule, whose
    canonical string is [C], or it does not parse. *)
Definition rdkit_from (s : string) : result (option unit) :=
  Ok (if String.eqb s "garbage" then None else Some tt).

Definition rdkit_to (m : option unit) : result string :=
  match m with
  | Some _ => Ok "C"
  | None => Raise (ServiceError "ArgumentError")
  end.

(** A generator that answers every prompt with two candidates. *)
Definition two_candidates : World :=
  mkWorld unit
    (fun _ r => Ok (map (fun _ => [mkCandidate "CC" []; mkCandidate "N" []]) (Req.inputs r)))
    (fun s => Ok s) rdkit_from rdkit_to (fun _ => Ok tt).

(** A generator whose answers are fixed, whatever the request. *)
Definition answering (texts : list string) : World :=
  mkWorld unit
    (fun _ _ => Ok (map (fun t => [mkCandidate t []]) texts))
    (fun s => Ok s) rdkit_from rdkit_to (fun _ => Ok tt).

(** The same, with a [parmap.map] that raises as a whole. *)
Definition pool_down (texts : list string) : World :=
  mkWorld unit
    (fun _ _ => Ok (map (fun t => [mkCandidate t []]) texts))
    (fun s => Ok s) rdkit_from rdkit_to (fun _ => Raise (ServiceError "pool")).

(** A decoder that rejects everything. *)
Definition decoder_down : World :=
  mkWorld unit
    (fun _ _ => Ok [[mkCandidate "[C]" []]])
    (fun _ => Raise (ServiceError "DecoderError")) rdkit_from rdkit_to (fun _ => Ok tt).

Definition no_files : Proc := mkProc ∅ [].

Definition with_file (path content : string) : Proc :=
  mkProc (<[path := content]> ∅) [].

End Examples.

(* ===================================================================== *)
(** ** Rounds that return, and what a run leaves in the file *)
(* ===================================================================== *)

(** Round [i] gets past [generate] and past [x[0]["text"]]: the two
    places of a round that are not inside the [try]. *)
Definition round_passes (w : World) (req : Req.t) (i : nat) : Prop :=
  exists gens texts,
    generate w i req = Ok gens /\ map_result first_text gens = Ok texts.

(** The state after the blocks [ws] have been written, in order. *)
Definition written (csv : string) (ws : list string) (st : Proc) : Proc :=
  fold_left (fun s block => appended csv block s) ws st.

(* ===================================================================== *)
(** ** [input_loop] *)
(* ===================================================================== *)

Module InputLoop.

(** What one call of [input] meets on the terminal: a line (without its
    newline), end of input, or an interrupt. A stream with nothing left
    is at end of input. *)
Inductive Key : Type :=
| Line (s : string)
| CtrlD
| CtrlC.

(** What the function sends out. *)
Inductive Out : Type :=
| OPrompt (display : string)     (* the prompt of input(display) *)
| OWrite (s : string)            (* sys.stdout.write(s) *)
| ODebug (inp : list string).    (* logger.debug of the lines read *)

Inductive Ended : Type :=
| Entered (s : string)           (* the value returned *)
| KeyboardInterrupt.             (* the exception raised again *)

Record Run : Type := mkRun {
  out : list Out;
  unread : list Key;
  ended : Ended
}.

(** The character ESC, [\033]. *)
Definition esc : string := String "027"%char EmptyString.

(** ["\033[0m"], the reset of the formatting. *)
Definition reset : string := (esc ++ "[0m")%string.

(** The green prompt, ending in the switch to bold. *)
Definition green_prompt : string :=
  (esc ++ "[32mPrompt (ctrl-D to end input, ctrl-C to quit):" ++ nl ++ esc ++ "[0;1m")%string.

(** [display]: the prompt while [inp] is empty, nothing afterwards. *)
Definition display (inp : list string) : string :=
  match inp with
  | [] => green_prompt
  | _ :: _ => EmptyString
  end.

(** The [while True] loop with [inp] as it stands, one unfolding per key
    of the stream. *)
Fixpoint loop (inp : list string) (stdin : list Key) : Run :=
  match stdin with
  | [] =>
      mkRun [OPrompt (display inp); ODebug inp] [] (Entered (String.concat nl inp))
  | CtrlD :: rest =>
      mkRun [OPrompt (display inp); ODebug inp] rest (Entered (String.concat nl inp))
  | CtrlC :: rest =>
      mkRun [OPrompt (display inp); OWrite reset] rest KeyboardInterrupt
  | Line data :: rest =>
      let r := loop (inp ++ [data]) rest in
      mkRun (OPrompt (display inp) :: OWrite reset :: out r) (unread r) (ended r)
  end.

Definition input_loop (stdin : list Key) : Run := loop [] stdin.

(** The prompts that show something. *)
Definition prompts_shown (o : list Out) : list string :=
  omap (fun e => match e with
                 | OPrompt d => if decide (d = EmptyString) then None else Some d
                 | _ => None
                 end) o.

(** The strings written to the standard output. *)
Definition written_out (o : list Out) : list string :=
  omap (fun e => match e with OWrite s => Some s | _ => None end) o.

(** The lists logged at debug level. *)
Definition debugged (o : list Out) : list (list string) :=
  omap (fun e => match e with ODebug l => Some l | _ => None end) o.

End InputLoop.

(* ===================================================================== *)
(** ** The module-level block under [__main__] *)
(* ===================================================================== *)

Module Main.

Definition warning : string :=
  "Missing slurm configuration, defaulting to 'use entire node' for API".

(** The block before [cli_main()]: [environ] is [os.environ], [hostname]
    what [socket.gethostname()] answers. The result is the warnings
    logged and the environment [cli_main] starts in. *)
Definition slurm_defaults (hostname : string) (environ : gmap string string)
  : list string * gmap string string :=
  match environ !! "SLURM_NODEID" with
  | None =>
      let environ := <["SLURM_NODEID" := "0"]> environ in
      let environ := <["SLURM_NNODES" := "1"]> environ in
      let environ := <["SLURM_NTASKS" := "1"]> environ in
      ([warning], <["SLURM_STEP_NODELIST" := hostname]> environ)
  | Some _ => ([], environ)
  end.

End Main.

(* ===================================================================== *)
(** ** [cli_main]: the launch arguments *)
(* ===================================================================== *)

Module Cli.

(** [str.isspace] on one character. A character of a Rocq string stands
    for a code point below 256; among those the white space is
    [\t \n \v \f \r], [\x1c] to [\x1f], the blank, [\x85] and [\xa0]. *)
Definition isspace (c : ascii) : bool :=
  let n := nat_of_ascii c in
  ((9 <=? n) && (n <=? 13) || (28 <=? n) && (n <=? 32)
   || (n =? 133) || (n =? 160))%nat.

(** [s.split()]: the maximal runs of characters that are not white
    space, in order. *)
Fixpoint split (s : string) : list string :=
  match s with
  | EmptyString => []
  | String c s' =>
      if isspace c then split s'
      else
        match s' with
        | EmptyString => [String c EmptyString]
        | String c' _ =>
            if isspace c' then String c EmptyString :: split s'
            else match split s' with
                 | [] => [String c EmptyString]
                 | t :: ts => String c t :: ts
                 end
        end
  end.

(** The loop [for s in LAUNCH_ARGS: flat_launch_args += s.split()]. *)
Definition flat_launch_args (LAUNCH_ARGS : list string) : list string :=
  fold_left (fun flat s => (flat ++ split s)%list) LAUNCH_ARGS [].

(** A command-line word: not empty, no white space. *)
Fixpoint no_space (s : string) : bool :=
  match s with
  | EmptyString => true
  | String c s' => negb (isspace c) && no_space s'
  end.

Definition word (s : string) : bool :=
  match s with
  | EmptyString => false
  | String _ _ => no_space s
  end.

(** [LAUNCH_ARGS] of [metaseq/service/constants.py], with the f-strings
    filled in. *)
Definition LAUNCH_ARGS : list string :=
  [ "--task language_modeling";
    "--hf-tokenizer data-bin/tokenizers/tokenizer_selfies/tokenizer.json";
    "--bpe hf_byte_bpe";
    "--path Generations_aspirin_0.4_selfies/checkpoint_344000.pt";
    "--beam 1";
    "--sampling-topp 0.8";
    "--logprobs 0";
    "--generation-len 1000000";
    "--temperature 1";
    "--seed 3";
    "--description top_0.8";
    "--output-file-path ./Generations_aspirin_0.4_selfies/OPT_iter_344000_top_0.8_seed_3.csv";
    "--mol-repr selfies";
    "--sampling";
    "--distributed-port 13000";
    "--checkpoint-shard-count 1";
    "--batch-size 3072";
    "--buffer-size 196608";
    "--max-tokens 196608";
    "/tmp" ]%string.

End Cli.

(* ===================================================================== *)
(** ** More example services *)
(* ===================================================================== *)

Module Samples.

(** A generator that answers its first [k] calls and raises from then
    on. *)
Definition fails_from (k : nat) : World :=
  mkWorld unit
    (fun i r => if (i <? k)%nat
                then Ok (map (fun _ => [mkCandidate "CC" []]) (Req.inputs r))
                else Raise (ServiceError "generate"))
    (fun s => Ok s) Examples.rdkit_from Examples.rdkit_to (fun _ => Ok tt).

(** A generator whose second slot comes back without a candidate. *)
Definition empty_slot : World :=
  mkWorld unit
    (fun _ _ => Ok [[mkCandidate "CC" []]; []])
    (fun s => Ok s) Examples.rdkit_from Examples.rdkit_to (fun _ => Ok tt).

(** A decoder that strips nothing and an RDKit that answers with the
    text between brackets doubled: enough to tell the slots apart. *)
Definition doubling : World :=
  mkWorld string
    (fun _ _ => Ok [[mkCandidate "C" []]; [mkCandidate "N" []]; [mkCandidate "O" []]])
    (fun s => Ok s) (fun s => Ok (Some s))
    (fun m => match m with
              | Some s => Ok (s ++ s)%string
              | None => Raise (ServiceError "ArgumentError")
              end)
    (fun _ => Ok tt).

End Samples.

(* ===================================================================== *)
(** ** Rounds written by design, and the services as observed *)
(* ===================================================================== *)

(** [parmap.map] as a whole gets through in round [i]. *)
Definition pool_ok (w : World) (i : nat) : bool :=
  match pool w i with
  | Ok _ => true
  | Raise _ => false
  end.

(** The number of rounds, among those of indices [idx], that write their
    block when no item fails: every round in pass-through mode, and in
    validate mode the rounds in which [parmap.map] gets through. *)
Definition rounds_written (w : World) (cfg : Cfg.t) (idx : list nat) : nat :=
  if String.eqb (Cfg.mol_repr cfg) "smiles" then length idx
  else length (filter (fun i => pool_ok w i = true) idx).

(** Every text the generator hands out for [req] decodes and
    canonicalizes. *)
Definition items_validate (w : World) (req : Req.t) : Prop :=
  forall i gens x c,
    generate w i req = Ok gens -> x ∈ gens -> head x = Some c ->
    exists s, make_caninical_smiles w (text c) = Ok (Some s).

Module Observed.

(** No bracket in the text. *)
Fixpoint no_bracket (s : string) : bool :=
  match s with
  | EmptyString => true
  | String c s' => negb (Ascii.eqb c "[") && no_bracket s'
  end.

(** The answers of [sf.decoder] on the texts of the examples: [[C]]
    decodes to [C] and [[He][He]] to [[He][He]]; a text without a
    bracketed symbol decodes to the empty string; [[Foo]] is no symbol
    and makes the decoder raise, and so does this table on the bracketed
    texts it does not know. *)
Definition decoder (s : string) : result string :=
  if String.eqb s "[C]" then Ok "C"%string
  else if String.eqb s "[He][He]" then Ok "[He][He]"%string
  else if no_bracket s then Ok EmptyString
  else Raise (ServiceError "DecoderError").

(** The molecules of the examples: methane, and the molecule without
    atoms that RDKit reads from the empty string. *)
Inductive molecule : Type := Methane | NoAtoms.

(** The answers of RDKit on the decoded texts: [C] and the empty string
    parse and are written back as they are; [[He][He]] does not parse
    (helium takes no bond), [MolFromSmiles] gives [None], and
    [MolToSmiles] raises on [None]. *)
Definition mol_from_smiles (smiles : string) : result (option molecule) :=
  Ok (if String.eqb smiles "C" then Some Methane
      else if String.eqb smiles "" then Some NoAtoms
      else None).

Definition mol_to_smiles (m : option molecule) : result string :=
  match m with
  | Some Methane => Ok "C"%string
  | Some NoAtoms => Ok EmptyString
  | None => Raise (ServiceError "ArgumentError")
  end.

(** These services behind a generator whose answer is [texts], one
    candidate per slot. *)
Definition world (texts : list string) : World :=
  mkWorld molecule
    (fun _ _ => Ok (map (fun t => [mkCandidate t []]) texts))
    decoder mol_from_smiles mol_to_smiles (fun _ => Ok tt).

(** The same services behind a generator that answers every prompt with
    the text [t]. *)
Definition per_prompt (t : string) : World :=
  mkWorld molecule
    (fun _ r => Ok (map (fun _ => [mkCandidate t []]) (Req.inputs r)))
    decoder mol_from_smiles mol_to_smiles (fun _ => Ok tt).

End Observed.

(* ===================================================================== *)
(** ** Facts on [math.ceil(a / b)] *)
(* ===================================================================== *)

Module PyNumFacts.
Import PyNum.

Lemma round_half_even_between (n d : Z) :
  0 < d -> n / d <= round_half_even n d <= n / d + 1.
Proof.
  intros Hd. unfold round_half_even.
  repeat case_match; lia.
Qed.

Lemma round_half_even_window (a b c P : Z) :
  0 < b -> 0 < P -> b < 2 * P ->
  (c - 1) * b < a <= c * b ->
  (c - 1) * P < round_half_even (a * P) b <= c * P.
Proof.
  intros Hb HP HbP [Hlo Hhi].
  pose proof (Z.div_mod (a * P) b ltac:(lia)) as Hdm.
  pose proof (Z.mod_pos_bound (a * P) b Hb) as Hr.
  set (q := (a * P) / b) in *. set (r := (a * P) mod b) in *.
  assert (Hq1 : (c - 1) * P <= q).
  { apply Z.div_le_lower_bound; nia. }
  assert (Hq2 : q <= c * P).
  { apply Z.div_le_upper_bound; try lia. nia. }
  unfold round_half_even. fold q r.
  split.
  - destruct (Z.eq_dec q ((c - 1) * P)) as [Heq|Hne].
    + assert (P <= r) by nia.
      repeat case_match; lia.
    + repeat case_match; lia.
  - destruct (Z.eq_dec q (c * P)) as [Heq|Hne].
    + assert (r = 0) by nia.
      repeat case_match; lia.
    + repeat case_match; lia.
Qed.

Lemma floor_log2_ratio_lower (a b : Z) :
  0 < a -> 0 < b ->
  ratio_lt_pow2 a b (floor_log2_ratio a b) = false.
Proof.
  intros Ha Hb. unfold floor_log2_ratio.
  destruct (ratio_lt_pow2 a b (Z.log2 a - Z.log2 b)) eqn:E; [|exact E].
  pose proof (Z.log2_spec a Ha) as [Hla _].
  pose proof (Z.log2_spec b Hb) as [_ Hlb].
  pose proof (Z.log2_nonneg a). pose proof (Z.log2_nonneg b).
  set (la := Z.log2 a) in *. set (lb := Z.log2 b) in *.
  unfold ratio_lt_pow2.
  destruct (0 <=? la - lb - 1) eqn:E1.
  - apply Z.leb_le in E1. apply Z.ltb_ge.
    replace la with ((lb + 1) + (la - lb - 1)) in Hla by lia.
    rewrite Z.pow_add_r in Hla by lia.
    assert (0 < 2 ^ (la - lb - 1)) by (apply Z.pow_pos_nonneg; lia).
    replace (Z.succ lb) with (lb + 1) in Hlb by lia. nia.
  - apply Z.leb_gt in E1. apply Z.ltb_ge.
    replace (Z.succ lb) with (la + (- (la - lb - 1))) in Hlb by lia.
    rewrite Z.pow_add_r in Hlb by lia.
    assert (0 < 2 ^ (- (la - lb - 1))) by (apply Z.pow_pos_nonneg; lia).
    nia.
Qed.

Lemma floor_log2_ratio_range (a b : Z) :
  0 < a < 2 ^ 53 -> 0 < b < 2 ^ 53 ->
  -53 <= floor_log2_ratio a b <= 52.
Proof.
  intros [Ha Ha'] [Hb Hb'].
  assert (Z.log2 a < 53) by (apply Z.log2_lt_pow2; lia).
  assert (Z.log2 b < 53) by (apply Z.log2_lt_pow2; lia).
  pose proof (Z.log2_nonneg a). pose proof (Z.log2_nonneg b).
  unfold floor_log2_ratio. case_match; lia.
Qed.

(** Below [2^53] the rounding of the quotient never crosses an integer:
    [math.ceil(a / b)] is the exact ceiling. *)
Lemma ceil_truediv_exact (a b : Z) :
  0 < a < 2 ^ 53 -> 0 < b < 2 ^ 53 ->
  ceil_truediv a b = Ok ((a + b - 1) / b).
Proof.
  intros Ha Hb.
  pose proof (floor_log2_ratio_range a b Ha Hb) as He.
  pose proof (floor_log2_ratio_lower a b ltac:(lia) ltac:(lia)) as Hlow.
  unfold ceil_truediv, and_then, int_truediv, pos_truediv.
  rewrite !Z.abs_eq by lia.
  set (e := floor_log2_ratio a b) in *.
  replace (b =? 0) with false by (symmetry; apply Z.eqb_neq; lia).
  replace (a =? 0) with false by (symmetry; apply Z.eqb_neq; lia).
  replace (a <? 0) with false by (symmetry; apply Z.ltb_ge; lia).
  replace (b <? 0) with false by (symmetry; apply Z.ltb_ge; lia).
  replace (Z.max (e - 52) (-1074)) with (e - 52) by lia.
  set (c := (a + b - 1) / b).
  assert (Hc : (c - 1) * b < a <= c * b).
  { pose proof (Z.div_mod (a + b - 1) b ltac:(lia)).
    pose proof (Z.mod_pos_bound (a + b - 1) b ltac:(lia)).
    fold c in H. nia. }
  set (P := 2 ^ (52 - e)).
  assert (HP : 0 < P) by (apply Z.pow_pos_nonneg; lia).
  assert (HbP : b < 2 * P).
  { unfold ratio_lt_pow2 in Hlow. destruct (0 <=? e) eqn:E0.
    - apply Z.leb_le in E0. apply Z.ltb_ge in Hlow.
      assert (2 ^ 53 = 2 ^ e * (2 * P)) as Hpow.
      { unfold P. rewrite <- (Z.pow_succ_r 2 (52 - e)) by lia.
        rewrite <- Z.pow_add_r by lia. f_equal. lia. }
      assert (0 < 2 ^ e) by (apply Z.pow_pos_nonneg; lia). nia.
    - apply Z.leb_gt in E0. apply Z.ltb_ge in Hlow.
      assert (2 * P = 2 ^ 53 * 2 ^ (- e)) as Hpow.
      { unfold P. rewrite <- (Z.pow_succ_r 2 (52 - e)) by lia.
        rewrite <- Z.pow_add_r by lia. f_equal. lia. }
      assert (0 < 2 ^ (- e)) by (apply Z.pow_pos_nonneg; lia). nia. }
  pose proof (round_half_even_window a b c P ltac:(lia) HP HbP Hc) as Hm.
  assert (Hc53 : c <= 2 ^ 53).
  { assert (c - 1 < 2 ^ 53) by nia. lia. }
  assert (HP105 : P <= 2 ^ 105) by (apply Z.pow_le_mono_r; lia).
  assert (Hbig : 2 ^ 53 * 2 ^ 105 < 2 ^ 1024) by (vm_compute; reflexivity).
  destruct (0 <=? e - 52) eqn:Ex.
  - apply Z.leb_le in Ex. assert (e = 52) as He52 by lia.
    assert (P = 1) as HP1 by (unfold P; rewrite He52; reflexivity).
    rewrite HP1, !Z.mul_1_r in Hm.
    replace (e - 52) with 0 by lia. rewrite Z.max_id. cbn [Z.pow].
    rewrite !Z.mul_1_r.
    replace (2 ^ 1024 <=? round_half_even a b) with false
      by (symmetry; apply Z.leb_gt; nia).
    unfold math_ceil; cbn. rewrite Z.mul_1_r. f_equal. lia.
  - apply Z.leb_gt in Ex.
    replace (- (e - 52)) with (52 - e) by lia. fold P.
    replace (Z.max (e - 52) 0) with 0 by lia. rewrite Z.mul_1_r.
    replace (2 ^ 1024 <=? round_half_even (a * P) b) with false
      by (symmetry; apply Z.leb_gt; nia).
    unfold math_ceil; cbn [fneg fmant fexp].
    replace (0 <=? e - 52) with false by (symmetry; apply Z.leb_gt; lia).
    replace (- (e - 52)) with (52 - e) by lia. fold P.
    f_equal.
    set (m := round_half_even (a * P) b) in *.
    cbn [xorb].
    assert ((- m) / P = - c) as ->; [|lia].
    symmetry. apply Z.div_unique with (r := c * P - m); lia.
Qed.

End PyNumFacts.

(* ===================================================================== *)
(** ** Lines of a text *)
(* ===================================================================== *)

Section Lines.

Lemma lines_nonempty (s : string) : s <> EmptyString -> lines s <> [].
Proof.
  destruct s as [|c s]; [congruence|]. intros _. cbn.
  destruct (Ascii.eqb c "010"); [discriminate|].
  destruct (lines s); discriminate.
Qed.

Lemma lines_String (c : ascii) (s : string) :
  lines (String c s) =
  if Ascii.eqb c "010" then EmptyString :: lines s
  else match lines s with
       | [] => [String c EmptyString]
       | l :: ls => String c l :: ls
       end.
Proof. reflexivity. Qed.

Lemma lines_app (f g : string) :
  terminated f = true -> lines (f ++ g) = (lines f ++ lines g)%list.
Proof.
  induction f as [|c f IH]; intros Ht; [reflexivity|].
  change (String c f ++ g)%string with (String c (f ++ g)).
  rewrite !lines_String.
  destruct f as [|c' f'].
  - cbn in Ht. rewrite Ht. reflexivity.
  - change (terminated (String c (String c' f')))
      with (terminated (String c' f')) in Ht.
    rewrite IH by exact Ht.
    pose proof (lines_nonempty (String c' f') ltac:(discriminate)) as Hne.
    destruct (Ascii.eqb c "010"); [reflexivity|].
    destruct (lines (String c' f')); [congruence|reflexivity].
Qed.

Lemma terminated_app_nl (s : string) : terminated (s ++ nl) = true.
Proof.
  induction s as [|c s IH]; [reflexivity|].
  change (String c s ++ nl)%string with (String c (s ++ nl)).
  destruct (s ++ nl)%string eqn:E; [destruct s; discriminate|exact IH].
Qed.

Lemma lines_one_line_nl (s rest : string) :
  one_line s = true -> lines (s ++ nl ++ rest) = s :: lines rest.
Proof.
  induction s as [|c s IH]; intros H1; [reflexivity|].
  cbn [one_line] in H1. apply andb_true_iff in H1 as [Hc Hs].
  apply negb_true_iff in Hc.
  change (String c s ++ nl ++ rest)%string with (String c (s ++ nl ++ rest)).
  rewrite lines_String, Hc, (IH Hs). reflexivity.
Qed.

Lemma append_assoc (a b c : string) : ((a ++ b) ++ c = a ++ (b ++ c))%string.
Proof.
  induction a as [|x a IH]; [reflexivity|].
  change (String x ((a ++ b) ++ c) = String x (a ++ b ++ c))%string.
  by rewrite IH.
Qed.

(** A block of joined single lines, closed by a newline, reads back as
    these lines. *)
Lemma lines_block (texts : list string) (rest : string) :
  texts <> [] -> Forall (fun s => one_line s = true) texts ->
  lines ((String.concat nl texts ++ nl) ++ rest) = (texts ++ lines rest)%list.
Proof.
  induction texts as [|s texts IH]; intros Hne Hall; [congruence|].
  apply Forall_cons in Hall as [Hs Hall].
  destruct texts as [|s' texts'].
  - cbn [String.concat]. rewrite append_assoc.
    rewrite lines_one_line_nl by exact Hs. reflexivity.
  - change (String.concat nl (s :: s' :: texts'))
      with (s ++ nl ++ String.concat nl (s' :: texts'))%string.
    rewrite !append_assoc. rewrite lines_one_line_nl by exact Hs.
    rewrite <- append_assoc. rewrite IH by (done || exact Hall). reflexivity.
Qed.

End Lines.

(* ===================================================================== *)
(** ** One round of the coordinator *)
(* ===================================================================== *)

Section Round.

Variable w : World.
Variable cfg : Cfg.t.
Variable csv : string.
Variable req : Req.t.

Ltac run_round :=
  unfold round, generator_generate, parmap_map, try_except, file_write,
    bind, emit, lift, ret; cbn.

Lemma round_generate_raises i st e :
  generate w i req = Raise e ->
  round w cfg csv req i st = mkRun [EGenerate (Some req)] st (Raised e).
Proof. intros Hg. run_round. rewrite Hg. reflexivity. Qed.

Lemma round_first_text_raises i st gens e :
  generate w i req = Ok gens ->
  map_result first_text gens = Raise e ->
  round w cfg csv req i st = mkRun [EGenerate (Some req)] st (Raised e).
Proof. intros Hg Hf. run_round. rewrite Hg. cbn. rewrite Hf. reflexivity. Qed.

Lemma round_smiles i st gens texts :
  Cfg.mol_repr cfg = "smiles" ->
  generate w i req = Ok gens ->
  map_result first_text gens = Ok texts ->
  round w cfg csv req i st =
  mkRun [EGenerate (Some req); EWrite (String.concat nl texts ++ nl)]
        (appended csv (String.concat nl texts ++ nl) st) (Returned tt).
Proof.
  intros Hm Hg Hf. run_round. rewrite Hg. cbn. rewrite Hf. cbn.
  rewrite Hm. reflexivity.
Qed.

Lemma round_validate_ok i st gens texts block :
  Cfg.mol_repr cfg <> "smiles" ->
  generate w i req = Ok gens ->
  map_result first_text gens = Ok texts ->
  validate w i texts = Ok block ->
  round w cfg csv req i st =
  mkRun [EGenerate (Some req); EWrite (block ++ nl)]
        (appended csv (block ++ nl) st) (Returned tt).
Proof.
  intros Hm Hg Hf Hv. run_round. rewrite Hg. cbn. rewrite Hf. cbn.
  apply String.eqb_neq in Hm. rewrite Hm.
  unfold validate in Hv.
  destruct (and_then (pool w i) _) as [canon|e]; [|discriminate]. cbn in *.
  rewrite Hv. reflexivity.
Qed.

Lemma round_validate_raises i st gens texts e :
  Cfg.mol_repr cfg <> "smiles" ->
  generate w i req = Ok gens ->
  map_result first_text gens = Ok texts ->
  validate w i texts = Raise e ->
  round w cfg csv req i st = mkRun [EGenerate (Some req)] st (Returned tt).
Proof.
  intros Hm Hg Hf Hv. run_round. rewrite Hg. cbn. rewrite Hf. cbn.
  apply String.eqb_neq in Hm. rewrite Hm.
  unfold validate in Hv.
  destruct (and_then (pool w i) _) as [canon|e']; cbn in *.
  - rewrite Hv. reflexivity.
  - reflexivity.
Qed.

(** Whatever the services answer, a round is one [generate] call with
    the request of the run, followed by at most one write; it never
    blocks and leaves the inbox alone. *)
Lemma round_shape i st :
  exists ws,
    trace (round w cfg csv req i st) = EGenerate (Some req) :: map EWrite ws /\
    (length ws <= 1)%nat /\
    outcome (round w cfg csv req i st) <> Blocked /\
    (ws = [] -> final (round w cfg csv req i st) = st).
Proof.
  destruct (generate w i req) as [gens|e] eqn:Hg.
  2:{ rewrite (round_generate_raises _ _ _ Hg). exists []. cbn. split_and!; auto. }
  destruct (map_result first_text gens) as [texts|e] eqn:Hf.
  2:{ rewrite (round_first_text_raises _ _ _ _ Hg Hf). exists []. cbn.
      split_and!; auto. }
  destruct (decide (Cfg.mol_repr cfg = "smiles")) as [Hm|Hm].
  - rewrite (round_smiles _ _ _ _ Hm Hg Hf). eexists [_]. cbn.
    split_and!; auto; discriminate.
  - destruct (validate w i texts) as [block|e] eqn:Hv.
    + rewrite (round_validate_ok _ _ _ _ _ Hm Hg Hf Hv). eexists [_]. cbn.
      split_and!; auto; discriminate.
    + rewrite (round_validate_raises _ _ _ _ _ Hm Hg Hf Hv). exists []. cbn.
      split_and!; auto.
Qed.

End Round.

(* ===================================================================== *)
(** ** The round loop *)
(* ===================================================================== *)

Lemma for_each_cons {A} (x : A) (xs : list A) (body : A -> M unit) (st : Proc) :
  for_each (x :: xs) body st =
  let r := body x st in
  match outcome r with
  | Returned _ =>
      let r' := for_each xs body (final r) in
      mkRun (trace r ++ trace r') (final r') (outcome r')
  | Raised e => mkRun (trace r) (final r) (Raised e)
  | Blocked => mkRun (trace r) (final r) Blocked
  end.
Proof. reflexivity. Qed.

Lemma generate_calls_app (t t' : list Event) :
  generate_calls (t ++ t') = (generate_calls t ++ generate_calls t')%list.
Proof. apply omap_app. Qed.

Lemma writes_app (t t' : list Event) :
  writes (t ++ t') = (writes t ++ writes t')%list.
Proof. apply omap_app. Qed.

Lemma broadcasts_app (t t' : list Event) :
  broadcasts (t ++ t') = (broadcasts t ++ broadcasts t')%list.
Proof. apply omap_app. Qed.

Lemma exists_checks_app (t t' : list Event) :
  exists_checks (t ++ t') = (exists_checks t ++ exists_checks t')%list.
Proof. apply omap_app. Qed.

Lemma writes_map_EWrite (ws : list string) : writes (map EWrite ws) = ws.
Proof. induction ws as [|s ws IH]; cbn; [done|]. by f_equal. Qed.

Lemma generate_calls_map_EWrite (ws : list string) :
  generate_calls (map EWrite ws) = [].
Proof. induction ws as [|s ws IH]; cbn; done. Qed.

Lemma round_event_map_EWrite req (ws : list string) :
  Forall (round_event req) (map EWrite ws).
Proof. induction ws; constructor; [right; eauto|done]. Qed.

Lemma round_events_calls req (t : list Event) :
  Forall (round_event req) t ->
  generate_calls t = replicate (length (generate_calls t)) (Some req).
Proof.
  induction 1 as [|e t [->|[s ->]] _ IH]; cbn; [done| |done].
  by f_equal.
Qed.

Lemma round_events_quiet req (t : list Event) :
  Forall (round_event req) t ->
  broadcasts t = [] /\ exists_checks t = [] /\
  Forall (fun e => is_report e = false) t.
Proof.
  induction 1 as [|e t [->|[s ->]] _ (Hb & He & Hr)]; cbn; split_and!; auto.
Qed.

Section Loop.

Variable w : World.
Variable cfg : Cfg.t.
Variable csv : string.
Variable req : Req.t.

(** The loop makes one call per round with the request of the run, writes
    at most once per call, never blocks, and has made a call for every
    index when it returns. *)
Lemma for_each_round_shape (idx : list nat) (st : Proc) :
  let r := for_each idx (round w cfg csv req) st in
  Forall (round_event req) (trace r) /\
  (length (writes (trace r)) <= length (generate_calls (trace r)))%nat /\
  (length (generate_calls (trace r)) <= length idx)%nat /\
  (outcome r = Returned tt -> length (generate_calls (trace r)) = length idx) /\
  outcome r <> Blocked /\
  inbox (final r) = inbox st.
Proof.
  revert st. induction idx as [|i idx IH]; intros st.
  - cbn. split_and!; auto; discriminate.
  - cbn zeta. rewrite for_each_cons. cbn zeta.
    destruct (round_shape w cfg csv req i st) as (ws & Ht & Hlen & Hnb & Hfin).
    assert (Hin : inbox (final (round w cfg csv req i st)) = inbox st).
    { clear. unfold round, generator_generate, parmap_map, try_except,
        file_write, bind, emit, lift, ret; cbn.
      repeat (case_match; cbn; try done). }
    destruct (outcome (round w cfg csv req i st)) as [[]|e|] eqn:Ho; [| |done].
    + specialize (IH (final (round w cfg csv req i st))). cbn zeta in IH.
      destruct IH as (Hev & Hw & Hg & Hret & Hblk & Hbox).
      cbn [trace outcome final]. rewrite Ht.
      rewrite generate_calls_app, writes_app. cbn.
      rewrite generate_calls_map_EWrite, writes_map_EWrite. cbn.
      rewrite !length_app. split_and!.
      * constructor; [by left|]. apply Forall_app. split; [|done].
        apply round_event_map_EWrite.
      * lia.
      * lia.
      * intros Hr. rewrite Hret by done. done.
      * done.
      * congruence.
    + cbn [trace outcome final]. rewrite Ht. cbn.
      rewrite generate_calls_map_EWrite, writes_map_EWrite. cbn.
      split_and!; try done; try lia.
      constructor; [by left|]. apply round_event_map_EWrite.
Qed.

End Loop.

(* ===================================================================== *)
(** ** The coordinator, from start to end *)
(* ===================================================================== *)

Ltac run_main :=
  cbv beta iota zeta delta
    [worker_main os_path_exists open_wt broadcast_object is_coordinator
     bind emit raise ret lift trace final outcome app startup Nat.eqb
     default from_option id already_exists saved_in opened fs inbox].

Section Coordinator.

Variable w : World.
Variable cfg : Cfg.t.
Variable rank : option nat.
Hypothesis Hrole : is_coordinator rank = true.

Lemma coordinator_rank : rank = None \/ rank = Some O.
Proof using Hrole.
  destruct rank as [[|r]|]; cbn in Hrole; auto; discriminate.
Qed.

Lemma worker_main_exists (st : Proc) :
  is_Some (fs st !! Cfg.output_file_path cfg) ->
  worker_main w cfg rank st =
  mkRun (startup cfg rank
           ++ [EExists (Cfg.output_file_path cfg) true; EPrint (already_exists cfg)])
        st (Raised (SystemExit 1)).
Proof using Hrole.
  intros Hex.
  destruct coordinator_rank as [-> | ->]; destruct st as [files box];
    run_main; rewrite (bool_decide_eq_true_2 _ Hex); reflexivity.
Qed.

Lemma worker_main_fresh (st : Proc) :
  fs st !! Cfg.output_file_path cfg = None ->
  worker_main w cfg rank st =
  let head := (startup cfg rank
                 ++ [EExists (Cfg.output_file_path cfg) false;
                     EOpen (Cfg.output_file_path cfg);
                     EPrintRequest (build_request cfg)])%list in
  match PyNum.ceil_truediv (Cfg.generation_len cfg) (Cfg.batch_size cfg) with
  | Raise e => mkRun head (opened cfg st) (Raised e)
  | Ok rounds =>
      let r := for_each (range rounds)
                 (round w cfg (Cfg.output_file_path cfg) (build_request cfg))
                 (opened cfg st) in
      match outcome r with
      | Returned _ => mkRun (head ++ trace r ++ [EPrint (saved_in cfg)]) (final r) (Returned tt)
      | Raised e => mkRun (head ++ trace r) (final r) (Raised e)
      | Blocked => mkRun (head ++ trace r) (final r) Blocked
      end
  end.
Proof using Hrole.
  intros Hno.
  assert (Hf : bool_decide (is_Some (fs st !! Cfg.output_file_path cfg)) = false).
  { apply bool_decide_eq_false_2. rewrite Hno. by intros [? ?]. }
  destruct coordinator_rank as [-> | ->]; destruct st as [files box];
    run_main; cbv [fs] in Hf; rewrite Hf;
    (destruct (PyNum.ceil_truediv _ _) as [rounds|e]; [|reflexivity]);
    (destruct (for_each _ _ _) as [t fin [[]|e|]]; reflexivity).
Qed.

End Coordinator.

Lemma append_nil_r (s : string) : (s ++ "")%string = s.
Proof.
  induction s as [|c s IH]; [reflexivity|].
  change (String c (s ++ "") = String c s)%string. by rewrite IH.
Qed.

Lemma map_result_length {A B} (f : A -> result B) xs ys :
  map_result f xs = Ok ys -> length ys = length xs.
Proof.
  revert ys. induction xs as [|x xs IH]; intros ys H; cbn in H.
  - by inversion H.
  - destruct (f x); [|discriminate]. cbn in H.
    destruct (map_result f xs) eqn:E; [|discriminate]. cbn in H.
    inversion H; subst. cbn. f_equal. by apply IH.
Qed.

Lemma map_result_Forall2 {A B} (f : A -> result B) xs ys :
  map_result f xs = Ok ys -> Forall2 (fun x y => f x = Ok y) xs ys.
Proof.
  revert ys. induction xs as [|x xs IH]; intros ys H; cbn in H.
  - inversion H. constructor.
  - destruct (f x) eqn:Ex; [|discriminate]. cbn in H.
    destruct (map_result f xs) eqn:E; [|discriminate]. cbn in H.
    inversion H; subst. constructor; auto.
Qed.

Lemma first_texts_ok (gens : Generations) :
  Forall (fun x => exists c, head x = Some c /\ one_line (text c) = true) gens ->
  exists texts, map_result first_text gens = Ok texts /\
                length texts = length gens /\
                Forall (fun s => one_line s = true) texts.
Proof.
  induction 1 as [|x gens (c & Hc & H1) _ (texts & Ht & Hl & Ha)].
  - exists []. by cbn.
  - exists (text c :: texts). cbn. destruct x as [|c' x]; [discriminate|].
    cbn in Hc. inversion Hc; subst. cbn. rewrite Ht. cbn.
    split_and!; auto.
Qed.

Lemma make_caninical_smiles_one_line (w : World) (s c : string) :
  canonical_one_line w ->
  make_caninical_smiles w s = Ok (Some c) -> one_line c = true.
Proof.
  intros Hw. unfold make_caninical_smiles.
  destruct (sf_decoder w s) as [smi|]; cbn; [|discriminate].
  destruct (MolFromSmiles w smi) as [m|]; cbn; [|discriminate].
  destruct (MolToSmiles w m) as [c'|] eqn:E; [|discriminate].
  intros H; inversion H; subst. eapply Hw, E.
Qed.

Lemma validate_ok_block (w : World) (i : nat) (texts : list string) (block : string) :
  canonical_one_line w ->
  validate w i texts = Ok block ->
  exists canon, block = String.concat nl canon /\
                length canon = length texts /\
                Forall (fun s => one_line s = true) canon.
Proof.
  intros Hw. unfold validate, join.
  destruct (pool w i); cbn; [|discriminate].
  destruct (map_result (make_caninical_smiles w) texts) as [opts|] eqn:Hm;
    cbn; [|discriminate].
  destruct (map_result expect_str opts) as [canon|] eqn:Hs; cbn; [|discriminate].
  intros H; inversion H; subst. exists canon. split; [done|].
  apply map_result_length in Hm as Hl1. apply map_result_length in Hs as Hl2.
  split; [congruence|].
  apply map_result_Forall2 in Hm. apply map_result_Forall2 in Hs.
  clear Hl1 Hl2 H. revert texts Hm.
  induction Hs as [|o c opts canon Ho _ IH]; intros texts Hm; [constructor|].
  inversion Hm as [|t o' texts' opts' Ht Hm']; subst.
  destruct o as [c'|]; cbn in Ho; [|discriminate]. inversion Ho; subst.
  constructor; [|by eapply IH].
  eapply make_caninical_smiles_one_line; eauto.
Qed.

Section Contract.

Variable w : World.
Variable cfg : Cfg.t.
Hypothesis Hgen : one_per_prompt w.
Hypothesis Hcan : canonical_one_line w.

Let csv := Cfg.output_file_path cfg.
Let req := build_request cfg.
Variable bsn : nat.
Hypothesis Hprompts : length (Req.inputs req) = bsn.
Hypothesis Hbsn : (0 < bsn)%nat.

Lemma lines_appended_block (f : string) (texts : list string) :
  terminated f = true -> length texts = bsn ->
  Forall (fun s => one_line s = true) texts ->
  terminated (f ++ String.concat nl texts ++ nl) = true /\
  length (lines (f ++ String.concat nl texts ++ nl)) = (length (lines f) + bsn)%nat.
Proof.
  intros Hf Hl Ha. split.
  - rewrite <- append_assoc. apply terminated_app_nl.
  - rewrite lines_app by exact Hf.
    rewrite <- (append_nil_r (String.concat nl texts ++ nl)).
    rewrite lines_block; [|destruct texts; [cbn in Hl; lia|done] | done].
    rewrite !length_app, Hl. cbn [lines length]. lia.
Qed.

Lemma persisted_cons (i : nat) (idx : list nat) :
  persisted w cfg (i :: idx) = (persisted w cfg [i] + persisted w cfg idx)%nat.
Proof.
  unfold persisted. destruct (String.eqb _ _); [reflexivity|].
  rewrite !filter_cons, filter_nil. case_decide; reflexivity.
Qed.

Lemma round_under_contract (i : nat) (st : Proc) (f : string) :
  fs st !! csv = Some f -> terminated f = true ->
  let r := round w cfg csv req i st in
  outcome r = Returned tt /\
  length (generate_calls (trace r)) = 1%nat /\
  length (writes (trace r)) = persisted w cfg [i] /\
  exists f', fs (final r) !! csv = Some f' /\ terminated f' = true /\
             length (lines f') = (length (lines f) + bsn * persisted w cfg [i])%nat.
Proof.
  intros Hfile Hterm.
  destruct (Hgen i req) as (gens & Hg & Hlen & Hheads).
  destruct (first_texts_ok gens Hheads) as (texts & Hf & Hlt & Hone).
  assert (Hwritten : forall block,
    fs (appended csv block st) !! csv = Some (f ++ block)%string).
  { intros block. unfold appended. cbn. rewrite lookup_insert_eq, Hfile. done. }
  destruct (decide (Cfg.mol_repr cfg = "smiles")) as [Hm|Hm].
  - cbn zeta. rewrite (round_smiles _ _ _ _ _ _ _ _ Hm Hg Hf). cbn.
    assert (persisted w cfg [i] = 1%nat) as ->.
    { unfold persisted. rewrite Hm. reflexivity. }
    split_and!; try done.
    eexists. split; [apply Hwritten|].
    destruct (lines_appended_block f texts Hterm) as [H1 H2];
      [congruence|done|].
    split; [done|]. rewrite H2. lia.
  - assert (Hne : String.eqb (Cfg.mol_repr cfg) "smiles" = false)
      by (by apply String.eqb_neq).
    destruct (validate w i texts) as [block|e] eqn:Hv.
    + cbn zeta. rewrite (round_validate_ok _ _ _ _ _ _ _ _ _ Hm Hg Hf Hv). cbn.
      assert (persisted w cfg [i] = 1%nat) as ->.
      { unfold persisted. rewrite Hne, filter_cons, filter_nil.
        unfold stage_ok. fold req. rewrite Hg, Hf, Hv.
        case_decide; [reflexivity|done]. }
      destruct (validate_ok_block _ _ _ _ Hcan Hv) as (canon & -> & Hlc & Hoc).
      split_and!; try done.
      eexists. split; [apply Hwritten|].
      destruct (lines_appended_block f canon Hterm) as [H1 H2];
        [congruence|done|].
      split; [done|]. rewrite H2. lia.
    + cbn zeta. rewrite (round_validate_raises _ _ _ _ _ _ _ _ _ Hm Hg Hf Hv). cbn.
      assert (persisted w cfg [i] = 0%nat) as ->.
      { unfold persisted. rewrite Hne, filter_cons, filter_nil.
        unfold stage_ok. fold req. rewrite Hg, Hf, Hv.
        case_decide; [done|reflexivity]. }
      split_and!; try done.
      exists f. split_and!; try done. lia.
Qed.

Lemma for_each_under_contract (idx : list nat) (st : Proc) (f : string) :
  fs st !! csv = Some f -> terminated f = true ->
  let r := for_each idx (round w cfg csv req) st in
  outcome r = Returned tt /\
  length (generate_calls (trace r)) = length idx /\
  length (writes (trace r)) = persisted w cfg idx /\
  exists f', fs (final r) !! csv = Some f' /\ terminated f' = true /\
             length (lines f') = (length (lines f) + bsn * persisted w cfg idx)%nat.
Proof.
  revert st f. induction idx as [|i idx IH]; intros st f Hfile Hterm.
  - cbn. split_and!; try done.
    + unfold persisted. by destruct (String.eqb _ _).
    + exists f. split_and!; try done.
      unfold persisted. destruct (String.eqb _ _); cbn; lia.
  - cbn zeta. rewrite for_each_cons. cbn zeta.
    destruct (round_under_contract i st f Hfile Hterm)
      as (Ho & Hc & Hw & f1 & Hf1 & Ht1 & Hl1).
    rewrite Ho.
    destruct (IH _ f1 Hf1 Ht1) as (Ho' & Hc' & Hw' & f2 & Hf2 & Ht2 & Hl2).
    cbn [trace final outcome].
    rewrite generate_calls_app, writes_app, !length_app, persisted_cons.
    rewrite Hc, Hc', Hw, Hw'. split_and!; try done.
    exists f2. split_and!; try done. lia.
Qed.

End Contract.

(* ===================================================================== *)
(** ** The trace of every coordinator run *)
(* ===================================================================== *)

Section CoordinatorTrace.

Variable w : World.
Variable cfg : Cfg.t.
Variable rank : option nat.
Hypothesis Hrole : is_coordinator rank = true.

Let path := Cfg.output_file_path cfg.
Let req := build_request cfg.

(** Start-up, one existence check, then either the message of the guard
    or: open, print the request, the rounds, and the closing message of a
    run that returns. *)
Lemma coordinator_trace (st : Proc) :
  exists loop closing,
    trace (worker_main w cfg rank st) =
      (startup cfg rank
       ++ EExists path (bool_decide (is_Some (fs st !! path)))
       :: (if bool_decide (is_Some (fs st !! path))
           then [EPrint (already_exists cfg)]
           else EOpen path :: EPrintRequest req :: loop ++ closing))%list /\
    Forall (round_event req) loop /\
    (closing = [] \/ closing = [EPrint (saved_in cfg)]) /\
    (forall rounds,
       PyNum.ceil_truediv (Cfg.generation_len cfg) (Cfg.batch_size cfg) = Ok rounds ->
       (length (generate_calls loop) <= Z.to_nat rounds)%nat).
Proof using Hrole.
  destruct (fs st !! path) as [content|] eqn:Hfile.
  - rewrite (worker_main_exists w cfg rank Hrole st) by (fold path; by rewrite Hfile).
    rewrite bool_decide_eq_true_2 by eauto.
    exists [], []. split_and!; auto. intros; cbn; lia.
  - rewrite (worker_main_fresh w cfg rank Hrole st Hfile).
    rewrite bool_decide_eq_false_2 by (by intros [? ?]).
    cbv zeta.
    destruct (PyNum.ceil_truediv _ _) as [rounds|e] eqn:Hceil.
    + pose proof (for_each_round_shape w cfg path req (range rounds) (opened cfg st))
        as (Hev & _ & Hle & _ & Hnb & _).
      fold path req.
      assert (Hlen : length (range rounds) = Z.to_nat rounds)
        by (unfold range; apply length_seq).
      set (r := for_each (range rounds) (round w cfg path req) (opened cfg st)) in *.
      rewrite Hlen in Hle.
      assert (Hrounds : forall n, Ok rounds = Ok n ->
                (length (generate_calls (trace r)) <= Z.to_nat n)%nat).
      { intros n Hn. inversion Hn; subst. exact Hle. }
      destruct (outcome r) as [[]|e|]; cbn [trace].
      * exists (trace r), [EPrint (saved_in cfg)].
        split_and!; auto. by rewrite <- !app_assoc.
      * exists (trace r), []. split_and!; auto.
        by rewrite <- !app_assoc, app_nil_r.
      * exists (trace r), []. split_and!; auto.
        by rewrite <- !app_assoc, app_nil_r.
    + exists [], []. cbn [trace]. split_and!; auto. discriminate.
Qed.

(** The [generate] calls of a coordinator run all carry the request built
    before the loop. *)
Lemma coordinator_calls (st : Proc) :
  generate_calls (trace (worker_main w cfg rank st)) =
  replicate (length (generate_calls (trace (worker_main w cfg rank st)))) (Some req).
Proof using Hrole.
  destruct (coordinator_trace st) as (loop & closing & -> & Hev & Hcl & _).
  assert (Hs : generate_calls (startup cfg rank) = [])
    by (destruct (coordinator_rank rank Hrole) as [Hr | Hr]; rewrite Hr; auto).
  assert (Hc : generate_calls closing = [])
    by (destruct Hcl as [-> | ->]; reflexivity).
  rewrite generate_calls_app, Hs.
  destruct (bool_decide _); [reflexivity|].
  change (EExists path false :: EOpen path :: EPrintRequest req :: loop ++ closing)
    with ([EExists path false; EOpen path; EPrintRequest req] ++ loop ++ closing)%list.
  rewrite !generate_calls_app, Hc, app_nil_r.
  by apply round_events_calls.
Qed.

Lemma coordinator_calls_le (st : Proc) (rounds : Z) :
  PyNum.ceil_truediv (Cfg.generation_len cfg) (Cfg.batch_size cfg) = Ok rounds ->
  (length (generate_calls (trace (worker_main w cfg rank st))) <= Z.to_nat rounds)%nat.
Proof using Hrole.
  intros Hceil.
  destruct (coordinator_trace st) as (loop & closing & -> & Hev & Hcl & Hle).
  specialize (Hle _ Hceil).
  assert (Hs : generate_calls (startup cfg rank) = [])
    by (destruct (coordinator_rank rank Hrole) as [Hr | Hr]; rewrite Hr; auto).
  assert (Hc : generate_calls closing = [])
    by (destruct Hcl as [-> | ->]; reflexivity).
  rewrite generate_calls_app, Hs.
  destruct (bool_decide _); [cbn; lia|].
  change (EExists path false :: EOpen path :: EPrintRequest req :: loop ++ closing)
    with ([EExists path false; EOpen path; EPrintRequest req] ++ loop ++ closing)%list.
  rewrite !generate_calls_app, Hc, app_nil_r. exact Hle.
Qed.

End CoordinatorTrace.

Lemma build_request_prompts (cfg : Cfg.t) :
  length (Req.inputs (build_request cfg)) = Z.to_nat (Cfg.batch_size cfg).
Proof. cbn. unfold list_repeat. apply length_replicate. Qed.

Lemma map_result_of_Forall2 {A B} (f : A -> result B) (xs : list A) (ys : list B) :
  Forall2 (fun x y => f x = Ok y) xs ys -> map_result f xs = Ok ys.
Proof.
  induction 1 as [|x y xs ys Hxy _ IH]; [reflexivity|].
  cbn. rewrite Hxy. cbn. rewrite IH. reflexivity.
Qed.

(** With [parmap.map] through and every text canonical, the [try] block
    has its block: the canonical strings joined. *)
Lemma validate_of_canon (w : World) (i : nat) (texts canon : list string) :
  pool_ok w i = true ->
  Forall2 (fun t c => make_caninical_smiles w t = Ok (Some c)) texts canon ->
  validate w i texts = Ok (String.concat nl canon).
Proof.
  intros Hpool Hcanon. unfold validate, join. unfold pool_ok in Hpool.
  destruct (pool w i) as [u|e]; [|discriminate]. cbn.
  rewrite (map_result_of_Forall2 _ _ (map Some canon)).
  - cbn. rewrite (map_result_of_Forall2 _ _ canon); [reflexivity|].
    clear. induction canon; constructor; auto.
  - clear -Hcanon. induction Hcanon; constructor; auto.
Qed.

Lemma validate_pool_raises (w : World) (i : nat) (texts : list string) :
  pool_ok w i = false -> exists e, validate w i texts = Raise e.
Proof.
  unfold validate, pool_ok. destruct (pool w i) as [u|e]; [discriminate|].
  intros _. exists e. reflexivity.
Qed.

(** When no item fails, the [try] block of a round gets through exactly
    when [parmap.map] does. *)
Lemma stage_ok_pool_ok (w : World) (req : Req.t) (i : nat) :
  one_per_prompt w -> items_validate w req ->
  stage_ok w req i = pool_ok w i.
Proof.
  intros Hgen Hitems. unfold stage_ok.
  destruct (Hgen i req) as (gens & Hg & _ & Hheads). rewrite Hg.
  destruct (first_texts_ok gens Hheads) as (texts & Hf & _ & _). rewrite Hf.
  destruct (pool_ok w i) eqn:Hpool.
  - assert (Hall : exists canon,
      Forall2 (fun t c => make_caninical_smiles w t = Ok (Some c)) texts canon).
    { apply map_result_Forall2 in Hf.
      assert (Hin : forall x c, x ∈ gens -> head x = Some c ->
                exists s, make_caninical_smiles w (text c) = Ok (Some s))
        by (intros x c; apply (Hitems i gens x c Hg)).
      clear Hg Hheads. induction Hf as [|x t gs ts Hx _ IH].
      - exists []. constructor.
      - destruct IH as [canon Hc].
        { intros y c Hy. apply Hin. by apply list_elem_of_further. }
        destruct x as [|c rest]; [discriminate|]. cbn in Hx. inversion Hx; subst.
        destruct (Hin (c :: rest) c (list_elem_of_here _ _) eq_refl) as [s0 Hs].
        exists (s0 :: canon). by constructor. }
    destruct Hall as [canon Hcanon].
    by rewrite (validate_of_canon w i texts canon Hpool Hcanon).
  - destruct (validate_pool_raises w i texts Hpool) as [e ->]. reflexivity.
Qed.

Lemma persisted_rounds_written (w : World) (cfg : Cfg.t) (idx : list nat) :
  one_per_prompt w ->
  (Cfg.mol_repr cfg <> "smiles" -> items_validate w (build_request cfg)) ->
  persisted w cfg idx = rounds_written w cfg idx.
Proof.
  intros Hgen Hitems. unfold persisted, rounds_written.
  destruct (String.eqb (Cfg.mol_repr cfg) "smiles") eqn:Hm; [reflexivity|].
  apply String.eqb_neq in Hm. specialize (Hitems Hm).
  induction idx as [|i idx IH]; [reflexivity|].
  rewrite !filter_cons, (stage_ok_pool_ok w _ i Hgen Hitems).
  case_decide; cbn; by rewrite IH.
Qed.

Lemma rounds_written_all (w : World) (cfg : Cfg.t) (idx : list nat) :
  (forall i, pool_ok w i = true) -> rounds_written w cfg idx = length idx.
Proof.
  intros Hpool. unfold rounds_written. destruct (String.eqb _ _); [reflexivity|].
  induction idx as [|i idx IH]; [reflexivity|].
  rewrite filter_cons. case_decide as Hi; [cbn; by rewrite IH|].
  by rewrite Hpool in Hi.
Qed.

Lemma rounds_written_le (w : World) (cfg : Cfg.t) (idx : list nat) :
  (rounds_written w cfg idx <= length idx)%nat.
Proof.
  unfold rounds_written. destruct (String.eqb _ _); [lia|]. apply length_filter.
Qed.

(** The pass-through scenario: [batch_size = 4], [generation_len = 10],
    a generator that answers [A], [B], [C], [D]: three rounds, twelve
    lines in round order. *)
Example pass_through_scenario :
  let r := worker_main (Examples.answering ["A"; "B"; "C"; "D"])
             (Examples.cfg_of 4 10 "smiles") None Examples.no_files in
  outcome r = Returned tt /\
  length (generate_calls (trace r)) = 3%nat /\
  option_map lines (fs (final r) !! "out.csv")
    = Some ["A"; "B"; "C"; "D"; "A"; "B"; "C"; "D"; "A"; "B"; "C"; "D"].
Proof. vm_compute. auto. Qed.

(* ===================================================================== *)
(** ** Claims *)
(* ===================================================================== *)

(** C1, as amended. For [0 < generation_len < 2^53] and
    [0 < batch_size < 2^53], with a generator that answers one
    single-line text per prompt, the coordinator returns after exactly
    [ceil(generation_len / batch_size)] rounds, each with the request of
    [batch_size] prompts. In pass-through mode the output file then
    holds that many rounds times [batch_size] lines. In validate mode,
    when every text decodes and canonicalizes, it holds [batch_size]
    lines for every round in which [parmap.map] got through; a round in
    which it raised as a whole has written nothing. *)
Theorem rounds_and_lines (w : World) (cfg : Cfg.t) (rank : option nat) (st : Proc) :
  0 < Cfg.generation_len cfg < 2 ^ 53 ->
  0 < Cfg.batch_size cfg < 2 ^ 53 ->
  is_coordinator rank = true ->
  fs st !! Cfg.output_file_path cfg = None ->
  one_per_prompt w ->
  canonical_one_line w ->
  (Cfg.mol_repr cfg <> "smiles" -> items_validate w (build_request cfg)) ->
  let r := worker_main w cfg rank st in
  let bs := Cfg.batch_size cfg in
  let rounds := (Cfg.generation_len cfg + bs - 1) / bs in
  outcome r = Returned tt /\
  generate_calls (trace r) = replicate (Z.to_nat rounds) (Some (build_request cfg)) /\
  Z.of_nat (length (Req.inputs (build_request cfg))) = bs /\
  exists file,
    fs (final r) !! Cfg.output_file_path cfg = Some file /\
    Z.of_nat (length (lines file)) = bs * Z.of_nat (rounds_written w cfg (range rounds)) /\
    (rounds_written w cfg (range rounds) <= Z.to_nat rounds)%nat /\
    (Cfg.mol_repr cfg = "smiles" -> Z.of_nat (length (lines file)) = bs * rounds) /\
    ((forall i, pool_ok w i = true) -> Z.of_nat (length (lines file)) = bs * rounds).
Proof.
  intros Hlen Hbs Hrole Hfile Hgen Hcan Hitems. cbv zeta.
  pose proof (coordinator_calls w cfg rank Hrole st) as Hcalls.
  rewrite (worker_main_fresh w cfg rank Hrole st Hfile) in *. cbv zeta in *.
  rewrite (PyNumFacts.ceil_truediv_exact _ _ Hlen Hbs) in *.
  set (rounds := (Cfg.generation_len cfg + Cfg.batch_size cfg - 1) / Cfg.batch_size cfg) in *.
  assert (Hrounds : 0 <= rounds) by (apply Z.div_pos; lia).
  assert (Hopened : fs (opened cfg st) !! Cfg.output_file_path cfg = Some EmptyString)
    by (unfold opened; cbn; apply lookup_insert_eq).
  pose proof (build_request_prompts cfg) as Hprompts.
  destruct (for_each_under_contract w cfg Hgen Hcan (Z.to_nat (Cfg.batch_size cfg))
              Hprompts ltac:(lia) (range rounds) (opened cfg st) EmptyString
              Hopened eq_refl) as (Ho & Hc & Hw & file & Hf & Ht & Hl).
  rewrite (persisted_rounds_written w cfg _ Hgen Hitems) in Hl.
  assert (Hrange : length (range rounds) = Z.to_nat rounds)
    by (unfold range; apply length_seq).
  set (r := for_each (range rounds) _ (opened cfg st)) in *.
  rewrite Ho in *. cbn [trace final outcome] in *.
  split; [reflexivity|]. split.
  - rewrite Hcalls. f_equal.
    rewrite !generate_calls_app, !length_app, Hc, Hrange.
    destruct (coordinator_rank rank Hrole) as [-> | ->]; cbn; lia.
  - split; [rewrite Hprompts; lia|].
    assert (Hlines : Z.of_nat (length (lines file))
                     = Cfg.batch_size cfg * Z.of_nat (rounds_written w cfg (range rounds))).
    { rewrite Hl. cbn [lines length]. lia. }
    exists file. split_and!.
    + exact Hf.
    + exact Hlines.
    + rewrite <- Hrange. apply rounds_written_le.
    + intros Hm. rewrite Hlines. unfold rounds_written. rewrite Hm. cbn.
      rewrite Hrange. lia.
    + intros Hpool. rewrite Hlines, (rounds_written_all w cfg _ Hpool), Hrange. lia.
Qed.

Lemma per_prompt_one_per_prompt : one_per_prompt (Observed.per_prompt "[C]").
Proof.
  intros k r. eexists. split; [reflexivity|]. split.
  - apply length_map.
  - induction (Req.inputs r) as [|p ps IH]; constructor; [|exact IH].
    eexists. split; reflexivity.
Qed.

Lemma observed_canonical_one_line (t : string) :
  canonical_one_line (Observed.per_prompt t).
Proof. intros [[|]|] s H; cbn in H; inversion H; reflexivity. Qed.

Lemma per_prompt_items_validate (req : Req.t) :
  items_validate (Observed.per_prompt "[C]") req.
Proof.
  intros i gens x c Hg Hx Hc. cbn in Hg. inversion Hg; subst. clear Hg.
  apply list_elem_of_fmap in Hx as (p & -> & _). cbn in Hc. inversion Hc; subst.
  exists "C"%string. reflexivity.
Qed.

Lemma rounds_and_lines_witness :
  let r := worker_main (Observed.per_prompt "[C]") (Examples.cfg_of 2 3 "selfies")
             None Examples.no_files in
  outcome r = Returned tt /\
  length (generate_calls (trace r)) = 2%nat /\
  exists file, fs (final r) !! "out.csv" = Some file /\
               Z.of_nat (length (lines file)) = 4.
Proof.
  destruct (rounds_and_lines (Observed.per_prompt "[C]") (Examples.cfg_of 2 3 "selfies")
              None Examples.no_files) as (Ho & Hc & _ & file & Hf & _ & _ & _ & Hs).
  - vm_compute. split; reflexivity.
  - vm_compute. split; reflexivity.
  - reflexivity.
  - reflexivity.
  - exact per_prompt_one_per_prompt.
  - apply observed_canonical_one_line.
  - intros _. apply per_prompt_items_validate.
  - cbv zeta. split; [exact Ho|]. split; [rewrite Hc; reflexivity|].
    exists file. split; [exact Hf|]. rewrite Hs by reflexivity. reflexivity.
Defined.

(** C1 as stated fails twice. In validate mode a round in which
    [parmap.map] raises as a whole is skipped and leaves the file short:
    with [batch_size = 1] and [generation_len = 1] the run completes with
    an empty file. And the number of rounds is the ceiling of a rounded
    quotient: for [generation_len = 2^53 + 1] and [batch_size = 1] the
    loop has [2^53] rounds. *)
Lemma rounds_and_lines_as_stated_fails :
  ~ rounds_and_lines_as_stated (Examples.pool_down ["[C]"])
      (Examples.cfg_of 1 1 "selfies") None Examples.no_files /\
  ~ rounds_and_lines_as_stated Examples.two_candidates
      (Examples.cfg_of 1 (2 ^ 53 + 1) "smiles") None Examples.no_files.
Proof.
  split.
  - intros (_ & _ & H). destruct H as (file & Hf & Hl); [vm_compute; reflexivity|].
    vm_compute in Hf. inversion Hf; subst. vm_compute in Hl. discriminate.
  - intros (H & _).
    pose proof (coordinator_calls_le Examples.two_candidates
                  (Examples.cfg_of 1 (2 ^ 53 + 1) "smiles") None eq_refl
                  Examples.no_files (2 ^ 53)) as Hle.
    set (calls := length _) in *. clearbody calls.
    assert (Hceil : PyNum.ceil_truediv (2 ^ 53 + 1) 1 = Ok (2 ^ 53))
      by (vm_compute; reflexivity).
    specialize (Hle Hceil).
    change (calls = Z.to_nat ((2 ^ 53 + 1 + 1 - 1) / 1)) in H.
    rewrite Z.div_1_r in H. lia.
Qed.

Lemma map_result_raises {A B} (f : A -> result B) (xs : list A) (j : nat) x e :
  xs !! j = Some x -> f x = Raise e -> exists e', map_result f xs = Raise e'.
Proof.
  revert j. induction xs as [|y xs IH]; intros j Hj Hx; [done|].
  destruct j as [|j]; cbn in Hj.
  - inversion Hj; subst. cbn. rewrite Hx. cbn. eauto.
  - cbn. destruct (f y); cbn; [|eauto].
    destruct (IH j Hj Hx) as [e' ->]. cbn. eauto.
Qed.

(** A [None] among the canonical strings, or an exception of the
    function mapped by [parmap.map], makes the [try] block raise. *)
Lemma validate_raises_on_item (w : World) (i j : nat) (texts : list string) (t : string) :
  texts !! j = Some t ->
  make_caninical_smiles w t = Ok None \/
    (exists e, make_caninical_smiles w t = Raise e) ->
  exists e, validate w i texts = Raise e.
Proof.
  intros Hj Hbad. unfold validate, join.
  destruct (pool w i); cbn; [|eauto].
  destruct Hbad as [Hnone|[e He]].
  - destruct (map_result (make_caninical_smiles w) texts) as [opts|] eqn:Hm;
      cbn; [|eauto].
    apply map_result_Forall2 in Hm.
    destruct (Forall2_lookup_l _ _ _ _ _ Hm Hj) as (o & Ho & Hfo).
    rewrite Hnone in Hfo. inversion Hfo; subst.
    destruct (map_result_raises expect_str opts j None TypeError Ho eq_refl) as [e' ->].
    cbn. eauto.
  - destruct (map_result_raises _ texts j t e Hj He) as [e' ->]. cbn. eauto.
Qed.

(** C2, on the code. In validate mode a round with one item that fails
    canonicalization ([None] in the batch), or that the decoder rejects,
    writes nothing at all: the other items of the round are not
    persisted. *)
Theorem failing_item_drops_round (w : World) (cfg : Cfg.t) (csv : string)
    (req : Req.t) (i : nat) (st : Proc) (gens : Generations)
    (texts : list string) (j : nat) (t : string) :
  Cfg.mol_repr cfg <> "smiles" ->
  generate w i req = Ok gens ->
  map_result first_text gens = Ok texts ->
  texts !! j = Some t ->
  make_caninical_smiles w t = Ok None \/
    (exists e, make_caninical_smiles w t = Raise e) ->
  round w cfg csv req i st = mkRun [EGenerate (Some req)] st (Returned tt).
Proof.
  intros Hm Hg Hf Hj Hbad.
  destruct (validate_raises_on_item w i j texts t Hj Hbad) as [e He].
  eapply round_validate_raises; eauto.
Qed.

Lemma failing_item_drops_round_witness :
  let w := Observed.world ["[C]"; "[He][He]"] in
  let cfg := Examples.cfg_of 2 2 "selfies" in
  map_result (make_caninical_smiles w) ["[C]"; "[He][He]"]
    = Ok [Some "C"; None] /\
  round w cfg "out.csv" (build_request cfg) 0 (opened cfg Examples.no_files)
    = mkRun [EGenerate (Some (build_request cfg))] (opened cfg Examples.no_files)
            (Returned tt) /\
  outcome (worker_main w cfg None Examples.no_files) = Returned tt /\
  fs (final (worker_main w cfg None Examples.no_files)) !! "out.csv" = Some EmptyString.
Proof.
  cbv zeta. split; [reflexivity|]. split; [|vm_compute; split; reflexivity].
  apply (failing_item_drops_round (Observed.world ["[C]"; "[He][He]"])
           (Examples.cfg_of 2 2 "selfies") "out.csv" _ 0%nat _
           [[mkCandidate "[C]" []]; [mkCandidate "[He][He]" []]]
           ["[C]"; "[He][He]"] 1%nat "[He][He]").
  - discriminate.
  - reflexivity.
  - reflexivity.
  - reflexivity.
  - left. reflexivity.
Defined.

Lemma worker_loop_nil (w : World) (r k : nat) (files : gmap string string) :
  worker_loop w (S r) k [] (mkProc files []) = mkRun [] (mkProc files []) Blocked.
Proof. reflexivity. Qed.

Lemma worker_loop_cons (w : World) (r k : nat) (x v : option Req.t)
    (pending rest : list (option Req.t)) (files : gmap string string) :
  worker_loop w (S r) k (x :: pending) (mkProc files (v :: rest)) =
  match (match v with Some q => generate w k q | None => Raise TypeError end) with
  | Ok _ =>
      let run := worker_loop w (S r) (S k) pending (mkProc files rest) in
      mkRun (EReceive v :: EGenerate v :: trace run) (final run) (outcome run)
  | Raise e => mkRun [EReceive v; EGenerate v] (mkProc files rest) (Raised e)
  end.
Proof.
  cbn [worker_loop].
  cbv beta iota zeta delta
    [bind broadcast_object generator_generate emit lift ret
     trace final outcome inbox fs app].
  destruct (match v with Some q => generate w k q | None => Raise TypeError end);
    reflexivity.
Qed.

(** The loop of the other ranks receives and generates; it publishes
    nothing and it never returns. *)
Lemma worker_loop_shape (w : World) (r k : nat) (pending : list (option Req.t))
    (files : gmap string string) :
  let run := worker_loop w (S r) k pending (mkProc files pending) in
  broadcasts (trace run) = [] /\
  exists_checks (trace run) = [] /\
  outcome run <> Returned tt /\
  (length (generate_calls (trace run)) <= length pending)%nat /\
  fs (final run) = files.
Proof.
  revert k. induction pending as [|v pending IH]; intros k.
  - cbn. split_and!; auto; discriminate.
  - specialize (IH (S k)). cbv zeta in *.
    destruct IH as (Hb & He & Ho & Hl & Hf).
    rewrite worker_loop_cons.
    destruct (match v with Some q => generate w k q | None => Raise TypeError end)
      as [gens|e].
    + cbv zeta.
      set (run := worker_loop w (S r) (S k) pending _) in *. clearbody run.
      unfold broadcasts, exists_checks, generate_calls in *.
      cbn. rewrite Hb, He. split_and!; auto. cbn. lia.
    + cbn. split_and!; auto; try discriminate. lia.
Qed.

(** Reading a coordinator run through an observer that ignores the
    rounds and the printed strings: only the start-up, the existence
    check, and the opening of the file remain. *)
Lemma coordinator_observe {X} (f : Event -> option X)
    (w : World) (cfg : Cfg.t) (rank : option nat) (st : Proc) :
  is_coordinator rank = true ->
  (forall v, f (EGenerate v) = None) ->
  (forall s, f (EWrite s) = None) ->
  (forall s, f (EPrint s) = None) ->
  let path := Cfg.output_file_path cfg in
  let found := bool_decide (is_Some (fs st !! path)) in
  omap f (trace (worker_main w cfg rank st)) =
  (omap f (startup cfg rank) ++ omap f [EExists path found]
   ++ (if found then [] else omap f [EOpen path; EPrintRequest (build_request cfg)]))%list.
Proof.
  intros Hrole Hg Hw Hp. cbv zeta.
  destruct (coordinator_trace w cfg rank Hrole st) as (loop & closing & -> & Hev & Hcl & _).
  assert (Hloop : omap f loop = []).
  { clear -Hev Hg Hw. induction Hev as [|e t [->|[s ->]] _ IH]; cbn; [done| |].
    - by rewrite Hg.
    - by rewrite Hw. }
  assert (Hclosing : omap f closing = []).
  { destruct Hcl as [-> | ->]; cbn; [done|]. by rewrite Hp. }
  rewrite omap_app. f_equal.
  destruct (bool_decide _).
  - cbn. rewrite Hp. by destruct (f _).
  - change (EExists (Cfg.output_file_path cfg) false
            :: EOpen (Cfg.output_file_path cfg)
            :: EPrintRequest (build_request cfg) :: loop ++ closing)
      with ([EExists (Cfg.output_file_path cfg) false]
            ++ [EOpen (Cfg.output_file_path cfg); EPrintRequest (build_request cfg)]
            ++ loop ++ closing)%list.
    rewrite !omap_app, Hloop, Hclosing, !app_nil_r. reflexivity.
Qed.

Lemma worker_main_worker (w : World) (cfg : Cfg.t) (r : nat)
    (files : gmap string string) (box : list (option Req.t)) :
  worker_main w cfg (Some (S r)) (mkProc files box) =
  let pre := [EGeneratorInterface; ELoadModel; ELogLoaded (Cfg.distributed_rank cfg)] in
  match box with
  | [] => mkRun pre (mkProc files []) Blocked
  | v :: rest =>
      let run := worker_loop w (S r) 0 rest (mkProc files rest) in
      mkRun (pre ++ EReceive v :: trace run) (final run) (outcome run)
  end.
Proof.
  destruct box as [|v rest].
  - reflexivity.
  - run_main.
    destruct (worker_loop w (S r) 0 rest _) as [t fin [[]|e|]]; reflexivity.
Qed.

(** C3, on the code. The only value a process ever publishes is the
    [None] that rank 0 sends once at start-up, before the request is
    built: no round's request goes over the broadcast channel. So at the
    run of one round with two ranks, rank 0 calls the generator with the
    request while rank 1, which receives what rank 0 publishes, blocks
    in its loop without a single call. *)
Theorem request_never_broadcast :
  (forall w cfg rank st,
     broadcasts (trace (worker_main w cfg rank st)) =
     match rank with Some O => [None] | _ => [] end) /\
  (let w := Examples.two_candidates in
   let cfg := Examples.cfg_of 1 1 "smiles" in
   let rank0 := worker_main w cfg (Some 0%nat) Examples.no_files in
   let rank1 := worker_main w cfg (Some 1%nat) (mkProc ∅ (broadcasts (trace rank0))) in
   generate_calls (trace rank0) = [Some (build_request cfg)] /\
   outcome rank0 = Returned tt /\
   generate_calls (trace rank1) = [] /\
   outcome rank1 = Blocked).
Proof.
  split.
  - intros w cfg rank st. destruct rank as [[|r]|].
    + unfold broadcasts.
      rewrite (coordinator_observe _ w cfg (Some 0%nat) st eq_refl) by done.
      cbv zeta. by destruct (bool_decide _).
    + destruct st as [files box]. rewrite worker_main_worker.
      destruct box as [|v rest]; [reflexivity|]. cbv zeta. cbn [trace].
      pose proof (worker_loop_shape w r 0 rest files) as (Hb & _).
      cbv zeta in Hb.
      set (run := worker_loop w (S r) 0 rest _) in *. clearbody run.
      unfold broadcasts in *. cbn. exact Hb.
    + unfold broadcasts.
      rewrite (coordinator_observe _ w cfg None st eq_refl) by done.
      cbv zeta. by destruct (bool_decide _).
  - vm_compute. auto.
Qed.

(** C4. In the coordinator the path is checked exactly once, after the
    start-up and before anything is generated, opened or written. When
    the path exists already the process ends with exit code 1, without a
    round, and every file is as it was. *)
Theorem existence_guard (w : World) (cfg : Cfg.t) (rank : option nat) (st : Proc) :
  is_coordinator rank = true ->
  let path := Cfg.output_file_path cfg in
  let r := worker_main w cfg rank st in
  exists_checks (trace r) = [path] /\
  (exists pre post found,
     trace r = (pre ++ EExists path found :: post)%list /\
     generate_calls pre = [] /\
     Forall (fun e => is_file_event e = false) pre) /\
  (is_Some (fs st !! path) ->
   outcome r = Raised (SystemExit 1) /\
   exit_code (outcome r) = Some 1 /\
   final r = st /\
   generate_calls (trace r) = [] /\
   Forall (fun e => is_file_event e = false) (trace r)).
Proof.
  intros Hrole. cbv zeta. split_and!.
  - unfold exists_checks. rewrite (coordinator_observe _ w cfg rank st Hrole) by done.
    cbv zeta.
    destruct (coordinator_rank rank Hrole) as [-> | ->];
      by destruct (bool_decide _).
  - destruct (coordinator_trace w cfg rank Hrole st) as (loop & closing & Ht & _).
    eexists (startup cfg rank), _, _. split; [exact Ht|].
    destruct (coordinator_rank rank Hrole) as [-> | ->]; cbn;
      split; auto; repeat constructor.
  - intros Hex. rewrite (worker_main_exists w cfg rank Hrole st Hex). cbn.
    destruct (coordinator_rank rank Hrole) as [-> | ->]; cbn;
      split_and!; auto; repeat constructor.
Qed.

Lemma existence_guard_witness :
  let st := Examples.with_file "out.csv" "CCO" in
  let r := worker_main Examples.two_candidates (Examples.cfg_of 2 3 "smiles")
             (Some 0%nat) st in
  exit_code (outcome r) = Some 1 /\
  fs (final r) !! "out.csv" = Some "CCO" /\
  exists_checks (trace r) = ["out.csv"].
Proof.
  destruct (existence_guard Examples.two_candidates (Examples.cfg_of 2 3 "smiles")
              (Some 0%nat) (Examples.with_file "out.csv" "CCO") eq_refl)
    as (Honce & _ & Hguard).
  destruct Hguard as (_ & Hcode & Hfinal & _).
  - exists "CCO". reflexivity.
  - cbv zeta. split; [exact Hcode|]. split; [|exact Honce].
    rewrite Hfinal. reflexivity.
Defined.

(** C7 as stated fails: the handle is built and the model loaded before
    the path is looked at. *)
Lemma guard_before_model_fails :
  ~ guard_before_model
      (trace (worker_main Examples.two_candidates (Examples.cfg_of 2 3 "smiles")
                None (Examples.with_file "out.csv" "CCO"))).
Proof.
  intros H.
  specialize (H [EGeneratorInterface; ELoadModel; ELogLoaded 0]
                [EPrint "out.csv already exists"] "out.csv" true
                ltac:(vm_compute; reflexivity)).
  inversion H as [|e t He _]. discriminate He.
Qed.

(** C7, as amended. When the path exists already, the coordinator builds
    the generator handle and loads the model, logs, takes part in the
    start-up broadcast when the process group is initialized, and only
    then checks the path, prints the message and exits with code 1; the
    generator is never called. *)
Theorem guard_after_model_load (w : World) (cfg : Cfg.t) (rank : option nat) (st : Proc) :
  is_coordinator rank = true ->
  is_Some (fs st !! Cfg.output_file_path cfg) ->
  let path := Cfg.output_file_path cfg in
  let r := worker_main w cfg rank st in
  trace r =
    ([EGeneratorInterface; ELoadModel; ELogLoaded (Cfg.distributed_rank cfg)]
     ++ match rank with Some _ => [EBroadcast None] | None => [] end
     ++ [EExists path true; EPrint (path ++ " already exists")])%list /\
  outcome r = Raised (SystemExit 1) /\
  generate_calls (trace r) = [].
Proof.
  intros Hrole Hex. cbv zeta.
  rewrite (worker_main_exists w cfg rank Hrole st Hex).
  destruct (coordinator_rank rank Hrole) as [-> | ->]; cbn; auto.
Qed.

Lemma guard_after_model_load_witness :
  let r := worker_main Examples.two_candidates (Examples.cfg_of 2 3 "smiles")
             None (Examples.with_file "out.csv" "CCO") in
  trace r = [EGeneratorInterface; ELoadModel; ELogLoaded 0;
             EExists "out.csv" true; EPrint "out.csv already exists"] /\
  outcome r = Raised (SystemExit 1).
Proof.
  destruct (guard_after_model_load Examples.two_candidates
              (Examples.cfg_of 2 3 "smiles") None
              (Examples.with_file "out.csv" "CCO") eq_refl)
    as (Ht & Ho & _).
  - exists "CCO". reflexivity.
  - cbv zeta. split; [exact Ht|exact Ho].
Defined.

(** C5 as stated fails: with a [parmap.map] that raises as a whole, the round
    is dropped and leaves no trace but its [generate] call. *)
Lemma dropped_round_reported_fails :
  ~ dropped_round_reported (Examples.pool_down ["[C]"])
      (Examples.cfg_of 1 1 "selfies") "out.csv"
      (build_request (Examples.cfg_of 1 1 "selfies")) 0
      (opened (Examples.cfg_of 1 1 "selfies") Examples.no_files).
Proof.
  intros (_ & _ & [Hrep | Hst]).
  - vm_compute in Hrep. inversion Hrep as [? ? H|? ? H]; [discriminate H|].
    inversion H.
  - apply Hst. reflexivity.
Qed.

(** C5, as amended. When the process pool of [parmap.map] fails in a
    round of validate mode, the round writes nothing and returns, so the
    loop goes on with the next index; the round consists of its
    [generate] call alone and leaves the state of the process as it was:
    nothing is logged, printed or counted. *)
Theorem pool_failure_skips_silently (w : World) (cfg : Cfg.t) (csv : string)
    (req : Req.t) (i : nat) (idx : list nat) (st : Proc)
    (gens : Generations) (texts : list string) (e : exn) :
  Cfg.mol_repr cfg <> "smiles" ->
  generate w i req = Ok gens ->
  map_result first_text gens = Ok texts ->
  pool w i = Raise e ->
  round w cfg csv req i st = mkRun [EGenerate (Some req)] st (Returned tt) /\
  for_each (i :: idx) (round w cfg csv req) st =
    (let rest := for_each idx (round w cfg csv req) st in
     mkRun (EGenerate (Some req) :: trace rest) (final rest) (outcome rest)).
Proof.
  intros Hm Hg Hf Hp.
  assert (Hr : round w cfg csv req i st = mkRun [EGenerate (Some req)] st (Returned tt)).
  { eapply round_validate_raises; eauto. unfold validate. rewrite Hp. reflexivity. }
  split; [exact Hr|].
  rewrite for_each_cons, Hr. reflexivity.
Qed.

Lemma pool_failure_skips_silently_witness :
  let cfg := Examples.cfg_of 1 2 "selfies" in
  let r := worker_main (Examples.pool_down ["[C]"]) cfg None Examples.no_files in
  round (Examples.pool_down ["[C]"]) cfg "out.csv" (build_request cfg) 0
        (opened cfg Examples.no_files)
    = mkRun [EGenerate (Some (build_request cfg))] (opened cfg Examples.no_files)
            (Returned tt) /\
  outcome r = Returned tt /\
  length (generate_calls (trace r)) = 2%nat /\
  fs (final r) !! "out.csv" = Some EmptyString.
Proof.
  cbv zeta. split; [|vm_compute; auto].
  apply (pool_failure_skips_silently (Examples.pool_down ["[C]"])
           (Examples.cfg_of 1 2 "selfies") "out.csv" _ 0%nat [] _
           [[mkCandidate "[C]" []]] ["[C]"] (ServiceError "pool")).
  - discriminate.
  - reflexivity.
  - reflexivity.
  - reflexivity.
Defined.

Lemma first_texts_of_heads (gens : Generations) (texts : list string) :
  Forall2 (fun x t => option_map text (head x) = Some t) gens texts ->
  map_result first_text gens = Ok texts.
Proof.
  induction 1 as [|x t gens texts Hx _ IH]; [reflexivity|].
  cbn. destruct x as [|c x]; [discriminate|]. cbn in Hx. inversion Hx; subst.
  cbn. rewrite IH. reflexivity.
Qed.

(** C6. In pass-through mode a round writes one block: the texts of the
    first candidates of the slots, unchanged and in slot order, joined
    by newlines and closed by one; the block is appended to the file.
    Read back line by line, the block gives these texts again when they
    are single lines. *)
Theorem pass_through_verbatim (w : World) (cfg : Cfg.t) (csv : string)
    (req : Req.t) (i : nat) (st : Proc) (gens : Generations) (texts : list string) :
  Cfg.mol_repr cfg = "smiles" ->
  generate w i req = Ok gens ->
  Forall2 (fun x t => option_map text (head x) = Some t) gens texts ->
  let block := (String.concat nl texts ++ nl)%string in
  round w cfg csv req i st =
    mkRun [EGenerate (Some req); EWrite block] (appended csv block st) (Returned tt) /\
  fs (appended csv block st) !! csv
    = Some (default EmptyString (fs st !! csv) ++ block)%string /\
  (texts <> [] -> Forall (fun s => one_line s = true) texts -> lines block = texts).
Proof.
  intros Hm Hg Hheads. cbv zeta. split_and!.
  - apply (round_smiles w cfg csv req i st gens texts Hm Hg).
    by apply first_texts_of_heads.
  - unfold appended. cbn. apply lookup_insert_eq.
  - intros Hne Hone.
    rewrite <- (append_nil_r (String.concat nl texts ++ nl)).
    rewrite lines_block by done. cbn. apply app_nil_r.
Qed.

Lemma pass_through_verbatim_witness :
  let cfg := Examples.cfg_of 4 10 "smiles" in
  let w := Examples.answering ["A"; "B"; "C"; "D"] in
  let r := round w cfg "out.csv" (build_request cfg) 0 (opened cfg Examples.no_files) in
  writes (trace r) = [String.concat nl ["A"; "B"; "C"; "D"] ++ nl]%string /\
  lines (String.concat nl ["A"; "B"; "C"; "D"] ++ nl) = ["A"; "B"; "C"; "D"].
Proof.
  destruct (pass_through_verbatim (Examples.answering ["A"; "B"; "C"; "D"])
              (Examples.cfg_of 4 10 "smiles") "out.csv"
              (build_request (Examples.cfg_of 4 10 "smiles")) 0%nat
              (opened (Examples.cfg_of 4 10 "smiles") Examples.no_files)
              (map (fun t => [mkCandidate t []]) ["A"; "B"; "C"; "D"])
              ["A"; "B"; "C"; "D"])
    as (Hr & _ & Hl).
  - reflexivity.
  - reflexivity.
  - repeat constructor.
  - cbv zeta. rewrite Hr. split; [reflexivity|].
    apply Hl; [discriminate|repeat constructor].
Defined.

Lemma build_request_invariant (cfg : Cfg.t) :
  0 <= Cfg.batch_size cfg ->
  let q := build_request cfg in
  Z.of_nat (length (Req.inputs q)) = Cfg.batch_size cfg /\
  Forall (fun p => p = []) (Req.inputs q) /\
  length (Req.min_tokens q) = length (Req.inputs q) /\
  Req.seed q = Cfg.seed cfg.
Proof.
  intros Hbs. cbn. unfold list_repeat. rewrite !length_replicate.
  split_and!; [lia| |done|done].
  apply Forall_forall. intros p Hp. by apply elem_of_replicate in Hp as [-> _].
Qed.

(** C8. For a batch size that is not negative, every [generate] call of
    a coordinator run carries the request built once before the loop:
    [batch_size] prompts, all empty, as many [min_tokens] as prompts, and
    the configured seed, the same in every round. *)
Theorem request_invariant (w : World) (cfg : Cfg.t) (rank : option nat) (st : Proc) :
  is_coordinator rank = true ->
  0 <= Cfg.batch_size cfg ->
  forall v, v ∈ generate_calls (trace (worker_main w cfg rank st)) ->
  exists q,
    v = Some q /\ q = build_request cfg /\
    Z.of_nat (length (Req.inputs q)) = Cfg.batch_size cfg /\
    Forall (fun p => p = []) (Req.inputs q) /\
    length (Req.min_tokens q) = length (Req.inputs q) /\
    Req.seed q = Cfg.seed cfg.
Proof.
  intros Hrole Hbs v Hv.
  rewrite (coordinator_calls w cfg rank Hrole st) in Hv.
  apply elem_of_replicate in Hv as [-> _].
  exists (build_request cfg). split; [done|]. split; [done|].
  by apply build_request_invariant.
Qed.

Lemma request_invariant_witness :
  let cfg := Examples.cfg_of 4 10 "smiles" in
  let r := worker_main Examples.two_candidates cfg None Examples.no_files in
  generate_calls (trace r) = replicate 3 (Some (build_request cfg)) /\
  exists q, Some (build_request cfg) = Some q /\
            Z.of_nat (length (Req.inputs q)) = 4 /\ Req.seed q = 3.
Proof.
  cbv zeta. split; [vm_compute; reflexivity|].
  destruct (request_invariant Examples.two_candidates (Examples.cfg_of 4 10 "smiles")
              None Examples.no_files eq_refl ltac:(vm_compute; discriminate)
              (Some (build_request (Examples.cfg_of 4 10 "smiles"))))
    as (q & Hq & _ & Hlen & _ & _ & Hseed).
  - vm_compute. apply list_elem_of_here.
  - exists q. split; [exact Hq|]. split; [exact Hlen|exact Hseed].
Defined.

(** C9. When the decoder returns, [make_caninical_smiles] returns too:
    the canonical string when RDKit gives one, [None] when either RDKit
    call raises. When the decoder raises, its exception leaves the
    function. *)
Theorem canonicalization_guarded (w : World) (selfies : string) :
  (forall smiles, sf_decoder w selfies = Ok smiles ->
     exists o, make_caninical_smiles w selfies = Ok o /\
       (forall c, and_then (MolFromSmiles w smiles) (MolToSmiles w) = Ok c ->
                  o = Some c) /\
       (forall e, and_then (MolFromSmiles w smiles) (MolToSmiles w) = Raise e ->
                  o = None)) /\
  (forall e, sf_decoder w selfies = Raise e ->
     make_caninical_smiles w selfies = Raise e).
Proof.
  unfold make_caninical_smiles. split.
  - intros smiles ->. cbn.
    destruct (and_then (MolFromSmiles w smiles) (MolToSmiles w)) as [c|e].
    + exists (Some c). split_and!; [done| |done]. intros c' H. by inversion H.
    + exists None. split_and!; [done|done|]. done.
  - intros e ->. reflexivity.
Qed.

Lemma canonicalization_guarded_witness :
  make_caninical_smiles Examples.two_candidates "[C]" = Ok (Some "C") /\
  make_caninical_smiles Examples.two_candidates "garbage" = Ok None /\
  make_caninical_smiles Examples.decoder_down "[C]"
    = Raise (ServiceError "DecoderError").
Proof.
  split_and!.
  - destruct (canonicalization_guarded Examples.two_candidates "[C]") as [H _].
    destruct (H "[C]" eq_refl) as (o & -> & Hc & _).
    f_equal. apply Hc. reflexivity.
  - destruct (canonicalization_guarded Examples.two_candidates "garbage") as [H _].
    destruct (H "garbage" eq_refl) as (o & -> & _ & He).
    f_equal. apply (He (ServiceError "ArgumentError")). reflexivity.
  - destruct (canonicalization_guarded Examples.decoder_down "[C]") as [_ H].
    apply H. reflexivity.
Defined.

Lemma first_texts_agree (g g' : Generations) :
  same_first_texts g g' -> map_result first_text g = map_result first_text g'.
Proof.
  induction 1 as [|x y g g' Hxy _ IH]; [reflexivity|].
  cbn. rewrite IH.
  destruct x as [|c x], y as [|c' y]; cbn in *; try done.
  by inversion Hxy.
Qed.

(** C10. The round takes one text per slot, that of the candidate at
    index 0, and nothing else of the generator's result. When every slot
    has a candidate, these first texts, one per slot, are what the round
    works on: in pass-through mode it writes them, joined by newlines;
    in validate mode, with [parmap.map] through and every first text
    canonical, it writes their canonical strings. The other candidates
    are dropped: two results that agree on the first texts give the same
    round, whatever their other candidates and fields are. *)
Theorem first_candidate_only (w : World) (cfg : Cfg.t) (csv : string)
    (req : Req.t) (i : nat) (st : Proc)
    (g g' : nat -> Req.t -> result Generations) (gens gens' : Generations) :
  g i req = Ok gens ->
  g' i req = Ok gens' ->
  same_first_texts gens gens' ->
  round (with_generate w g) cfg csv req i st
    = round (with_generate w g') cfg csv req i st /\
  (forall texts, map_result first_text gens = Ok texts ->
     Forall2 (fun x t => exists c rest, x = c :: rest /\ t = text c) gens texts) /\
  (forall texts,
     Forall2 (fun x t => option_map text (head x) = Some t) gens texts ->
     length texts = length gens /\
     (Cfg.mol_repr cfg = "smiles" ->
      let block := (String.concat nl texts ++ nl)%string in
      round (with_generate w g) cfg csv req i st =
        mkRun [EGenerate (Some req); EWrite block] (appended csv block st)
              (Returned tt)) /\
     (Cfg.mol_repr cfg <> "smiles" -> pool w i = Ok tt ->
      forall canon,
        Forall2 (fun t c => make_caninical_smiles w t = Ok (Some c)) texts canon ->
        let block := (String.concat nl canon ++ nl)%string in
        round (with_generate w g) cfg csv req i st =
          mkRun [EGenerate (Some req); EWrite block] (appended csv block st)
                (Returned tt))).
Proof.
  intros Hg Hg' Hsame. split_and!.
  - unfold round, generator_generate, parmap_map, try_except, file_write,
      bind, emit, lift, ret. cbn.
    rewrite Hg, Hg'. cbn. rewrite (first_texts_agree _ _ Hsame). reflexivity.
  - intros texts Ht. apply map_result_Forall2 in Ht.
    eapply Forall2_impl; [exact Ht|].
    intros [|c rest] t Hx; cbn in Hx; [discriminate|].
    inversion Hx; subst. eauto.
  - intros texts Hheads.
    pose proof (first_texts_of_heads gens texts Hheads) as Hf.
    split_and!.
    + symmetry. eapply Forall2_length, Hheads.
    + intros Hm. cbv zeta.
      exact (round_smiles (with_generate w g) cfg csv req i st gens texts Hm Hg Hf).
    + intros Hm Hpool canon Hcanon. cbv zeta.
      apply (round_validate_ok (with_generate w g) cfg csv req i st gens texts
               (String.concat nl canon) Hm Hg Hf).
      apply (validate_of_canon (with_generate w g) i texts canon).
      * unfold pool_ok. cbn. by rewrite Hpool.
      * exact Hcanon.
Qed.

Lemma first_candidate_only_witness :
  let cfg := Examples.cfg_of 2 2 "smiles" in
  let one := fun (_ : nat) (_ : Req.t) =>
    Ok [[mkCandidate "CC" []]; [mkCandidate "N" []]] in
  let many := fun (_ : nat) (_ : Req.t) =>
    Ok [[mkCandidate "CC" ["C"; "C"]; mkCandidate "O" []];
        [mkCandidate "N" []; mkCandidate "CCO" []; mkCandidate "S" []]] in
  round (with_generate Examples.two_candidates many) cfg "out.csv"
        (build_request cfg) 0 (opened cfg Examples.no_files)
  = round (with_generate Examples.two_candidates one) cfg "out.csv"
        (build_request cfg) 0 (opened cfg Examples.no_files) /\
  writes (trace (round (with_generate Examples.two_candidates many) cfg "out.csv"
                   (build_request cfg) 0 (opened cfg Examples.no_files)))
  = [String.concat nl ["CC"; "N"] ++ nl]%string.
Proof.
  cbv zeta.
  destruct (first_candidate_only Examples.two_candidates
              (Examples.cfg_of 2 2 "smiles") "out.csv"
              (build_request (Examples.cfg_of 2 2 "smiles")) 0%nat
              (opened (Examples.cfg_of 2 2 "smiles") Examples.no_files)
              (fun _ _ => Ok [[mkCandidate "CC" ["C"; "C"]; mkCandidate "O" []];
                              [mkCandidate "N" []; mkCandidate "CCO" [];
                               mkCandidate "S" []]])
              (fun _ _ => Ok [[mkCandidate "CC" []]; [mkCandidate "N" []]])
              [[mkCandidate "CC" ["C"; "C"]; mkCandidate "O" []];
               [mkCandidate "N" []; mkCandidate "CCO" []; mkCandidate "S" []]]
              [[mkCandidate "CC" []]; [mkCandidate "N" []]]
              eq_refl eq_refl) as (Heq & _ & Hwrite).
  - repeat constructor.
  - split; [exact Heq|].
    destruct (Hwrite ["CC"; "N"]%string) as (_ & Hsmiles & _).
    + repeat constructor.
    + rewrite (Hsmiles eq_refl). reflexivity.
Defined.


(* ===================================================================== *)
(** ** More on [worker_main]: what a run leaves behind *)
(* ===================================================================== *)

Lemma written_app (csv : string) (ws ws' : list string) (st : Proc) :
  written csv (ws ++ ws') st = written csv ws' (written csv ws st).
Proof. unfold written. apply fold_left_app. Qed.

Lemma written_file (csv : string) (ws : list string) (st : Proc) (f : string) :
  fs st !! csv = Some f ->
  fs (written csv ws st) !! csv = Some (f ++ String.concat EmptyString ws)%string.
Proof.
  revert st f. induction ws as [|b ws IH]; intros st f Hf.
  - cbn. by rewrite append_nil_r.
  - change (written csv (b :: ws) st) with (written csv ws (appended csv b st)).
    rewrite (IH _ (f ++ b)%string).
    + f_equal. rewrite append_assoc. f_equal.
      destruct ws as [|b' ws']; [cbn; by rewrite append_nil_r|reflexivity].
    + unfold appended. cbn. rewrite lookup_insert_eq, Hf. reflexivity.
Qed.

Lemma written_frame (csv p : string) (ws : list string) (st : Proc) :
  p <> csv -> fs (written csv ws st) !! p = fs st !! p.
Proof.
  intros Hp. revert st. induction ws as [|b ws IH]; intros st; [reflexivity|].
  change (written csv (b :: ws) st) with (written csv ws (appended csv b st)).
  rewrite IH. unfold appended. cbn. by rewrite lookup_insert_ne.
Qed.

Lemma round_final (w : World) (cfg : Cfg.t) (csv : string) (req : Req.t)
    (i : nat) (st : Proc) :
  final (round w cfg csv req i st) =
  written csv (writes (trace (round w cfg csv req i st))) st.
Proof.
  destruct (generate w i req) as [gens|e] eqn:Hg.
  2:{ by rewrite (round_generate_raises _ _ _ _ _ _ _ Hg). }
  destruct (map_result first_text gens) as [texts|e] eqn:Hf.
  2:{ by rewrite (round_first_text_raises _ _ _ _ _ _ _ _ Hg Hf). }
  destruct (decide (Cfg.mol_repr cfg = "smiles")) as [Hm|Hm].
  - by rewrite (round_smiles _ _ _ _ _ _ _ _ Hm Hg Hf).
  - destruct (validate w i texts) as [block|e] eqn:Hv.
    + by rewrite (round_validate_ok _ _ _ _ _ _ _ _ _ Hm Hg Hf Hv).
    + by rewrite (round_validate_raises _ _ _ _ _ _ _ _ _ Hm Hg Hf Hv).
Qed.

Lemma for_each_final (w : World) (cfg : Cfg.t) (csv : string) (req : Req.t)
    (idx : list nat) (st : Proc) :
  final (for_each idx (round w cfg csv req) st) =
  written csv (writes (trace (for_each idx (round w cfg csv req) st))) st.
Proof.
  revert st. induction idx as [|i idx IH]; intros st; [reflexivity|].
  rewrite for_each_cons. cbv zeta.
  pose proof (round_final w cfg csv req i st) as Hr.
  destruct (outcome (round w cfg csv req i st)) as [[]|e|]; cbn [trace final].
  - rewrite writes_app, written_app, <- Hr. apply IH.
  - exact Hr.
  - exact Hr.
Qed.

(** The writes of a coordinator run are those of its round loop, and the
    state it ends in is the opened file with these blocks appended. *)
Lemma coordinator_final (w : World) (cfg : Cfg.t) (rank : option nat) (st : Proc) :
  is_coordinator rank = true ->
  fs st !! Cfg.output_file_path cfg = None ->
  final (worker_main w cfg rank st) =
  written (Cfg.output_file_path cfg) (writes (trace (worker_main w cfg rank st)))
          (opened cfg st).
Proof.
  intros Hrole Hfile.
  rewrite (worker_main_fresh w cfg rank Hrole st Hfile). cbv zeta.
  assert (Hs : writes (startup cfg rank) = [])
    by (destruct (coordinator_rank rank Hrole) as [-> | ->]; reflexivity).
  destruct (PyNum.ceil_truediv _ _) as [rounds|e]; cbn [trace final].
  - pose proof (for_each_final w cfg (Cfg.output_file_path cfg) (build_request cfg)
                  (range rounds) (opened cfg st)) as Hf.
    destruct (outcome (for_each _ _ _)) as [[]|e|]; cbn [trace final];
      rewrite !writes_app, Hs; cbn; rewrite ?app_nil_r; exact Hf.
  - rewrite writes_app, Hs. reflexivity.
Qed.

(** X1. The file of a coordinator run that started without it holds
    exactly the blocks the run wrote, one after the other, whether the
    run returned or raised: the file is only ever appended to. *)
Theorem file_is_the_blocks_written (w : World) (cfg : Cfg.t) (rank : option nat)
    (st : Proc) :
  is_coordinator rank = true ->
  fs st !! Cfg.output_file_path cfg = None ->
  let r := worker_main w cfg rank st in
  fs (final r) !! Cfg.output_file_path cfg
    = Some (String.concat EmptyString (writes (trace r))).
Proof.
  intros Hrole Hfile. cbv zeta.
  rewrite (coordinator_final w cfg rank st Hrole Hfile).
  rewrite (written_file _ _ _ EmptyString); [reflexivity|].
  unfold opened. cbn. apply lookup_insert_eq.
Qed.

Lemma file_is_the_blocks_written_witness :
  let r := worker_main (Examples.answering ["CC"; "garbage"])
             (Examples.cfg_of 2 4 "smiles") None Examples.no_files in
  writes (trace r) = [String.concat nl ["CC"; "garbage"] ++ nl;
                      String.concat nl ["CC"; "garbage"] ++ nl]%string /\
  fs (final r) !! "out.csv" = Some (String.concat EmptyString (writes (trace r))).
Proof.
  cbv zeta. split; [vm_compute; reflexivity|].
  apply (file_is_the_blocks_written (Examples.answering ["CC"; "garbage"])
           (Examples.cfg_of 2 4 "smiles") None Examples.no_files);
    reflexivity.
Defined.

(** X2. No run of [worker_main], in either role and however it ends,
    changes a file other than the configured output file. *)
Theorem other_files_untouched (w : World) (cfg : Cfg.t) (rank : option nat)
    (st : Proc) (p : string) :
  p <> Cfg.output_file_path cfg ->
  fs (final (worker_main w cfg rank st)) !! p = fs st !! p.
Proof.
  intros Hp.
  destruct (is_coordinator rank) eqn:Hrole.
  - destruct (fs st !! Cfg.output_file_path cfg) as [content|] eqn:Hfile.
    + by rewrite (worker_main_exists w cfg rank Hrole st) by eauto.
    + rewrite (coordinator_final w cfg rank st Hrole Hfile).
      rewrite written_frame by done. unfold opened. cbn.
      by rewrite lookup_insert_ne.
  - destruct rank as [[|r]|]; try discriminate.
    destruct st as [files box]. rewrite worker_main_worker.
    destruct box as [|v rest]; [reflexivity|]. cbv zeta. cbn [final].
    pose proof (worker_loop_shape w r 0 rest files) as (_ & _ & _ & _ & Hfs).
    cbv zeta in Hfs. rewrite Hfs. reflexivity.
Qed.

Lemma other_files_untouched_witness :
  fs (final (worker_main Examples.two_candidates (Examples.cfg_of 2 4 "smiles")
               None (Examples.with_file "notes.txt" "keep")))
    !! "notes.txt" = Some "keep".
Proof.
  rewrite (other_files_untouched Examples.two_candidates
             (Examples.cfg_of 2 4 "smiles") None
             (Examples.with_file "notes.txt" "keep") "notes.txt").
  - reflexivity.
  - discriminate.
Defined.

(* ===================================================================== *)
(** ** More on [worker_main]: the edges of the round count *)
(* ===================================================================== *)

Lemma ceil_truediv_zero_divisor (a : Z) :
  PyNum.ceil_truediv a 0 = Raise ZeroDivisionError.
Proof. reflexivity. Qed.

Lemma round_half_even_nonneg (n d : Z) :
  0 <= n -> 0 < d -> 0 <= PyNum.round_half_even n d.
Proof.
  intros Hn Hd.
  pose proof (PyNumFacts.round_half_even_between n d Hd) as [Hlo _].
  pose proof (Z.div_pos n d Hn Hd). lia.
Qed.

(** [math.ceil(a / b)] for [a <= 0 < b]: not positive, unless the
    quotient is too large for a float. *)
Lemma ceil_truediv_nonpos (a b : Z) :
  a <= 0 -> 0 < b ->
  (exists n, PyNum.ceil_truediv a b = Ok n /\ n <= 0) \/
  PyNum.ceil_truediv a b = Raise OverflowError.
Proof.
  intros Ha Hb. unfold PyNum.ceil_truediv, PyNum.int_truediv.
  replace (b =? 0) with false by (symmetry; apply Z.eqb_neq; lia).
  destruct (a =? 0) eqn:Ea.
  - left. exists 0. cbn.
    replace (b <? 0) with false by (symmetry; apply Z.ltb_ge; lia).
    split; [reflexivity|lia].
  - apply Z.eqb_neq in Ea.
    unfold PyNum.pos_truediv.
    set (x := Z.max (PyNum.floor_log2_ratio (Z.abs a) (Z.abs b) - 52) (-1074)).
    set (m := if 0 <=? x then _ else _).
    assert (Hm : 0 <= m).
    { unfold m. rewrite (Z.abs_eq b) by lia. destruct (0 <=? x) eqn:Ex.
      - apply Z.leb_le in Ex. apply round_half_even_nonneg; [lia|].
        apply Z.mul_pos_pos; [lia|]. apply Z.pow_pos_nonneg; lia.
      - apply Z.leb_gt in Ex. apply round_half_even_nonneg; [|lia].
        apply Z.mul_nonneg_nonneg; [lia|]. apply Z.pow_nonneg. lia. }
    destruct (2 ^ 1024 <=? m * 2 ^ Z.max x 0); [right; reflexivity|].
    left. cbn [and_then]. eexists. split; [reflexivity|].
    unfold PyNum.math_ceil. cbn [PyNum.fneg PyNum.fmant PyNum.fexp].
    replace (a <? 0) with true by (symmetry; apply Z.ltb_lt; lia).
    replace (b <? 0) with false by (symmetry; apply Z.ltb_ge; lia).
    cbn [xorb]. destruct (0 <=? x) eqn:Ex.
    + apply Z.leb_le in Ex.
      assert (0 <= m * 2 ^ x); [|lia].
      apply Z.mul_nonneg_nonneg; [lia|]. apply Z.pow_nonneg. lia.
    + apply Z.leb_gt in Ex.
      assert (0 <= m / 2 ^ (- x)); [|lia].
      apply Z.div_pos; [lia|]. apply Z.pow_pos_nonneg; lia.
Qed.

(** X3. With [batch_size = 0] the coordinator raises
    [ZeroDivisionError], but only after it has created the output file
    and printed the request: the file is left empty, the generator is
    never called, and the next run of the same configuration stops at
    the existence check with exit code 1. *)
Theorem zero_batch_size_leaves_empty_file (w : World) (cfg : Cfg.t)
    (rank : option nat) (st : Proc) :
  is_coordinator rank = true ->
  fs st !! Cfg.output_file_path cfg = None ->
  Cfg.batch_size cfg = 0 ->
  let r := worker_main w cfg rank st in
  outcome r = Raised ZeroDivisionError /\
  generate_calls (trace r) = [] /\
  fs (final r) !! Cfg.output_file_path cfg = Some EmptyString /\
  exit_code (outcome (worker_main w cfg rank (final r))) = Some 1.
Proof.
  intros Hrole Hfile Hbs. cbv zeta.
  rewrite (worker_main_fresh w cfg rank Hrole st Hfile). cbv zeta.
  rewrite Hbs, ceil_truediv_zero_divisor. cbn [trace final outcome].
  assert (Hopen : fs (opened cfg st) !! Cfg.output_file_path cfg = Some EmptyString)
    by (unfold opened; cbn; apply lookup_insert_eq).
  split_and!.
  - reflexivity.
  - rewrite generate_calls_app.
    destruct (coordinator_rank rank Hrole) as [-> | ->]; reflexivity.
  - exact Hopen.
  - rewrite (worker_main_exists w cfg rank Hrole (opened cfg st)) by eauto.
    reflexivity.
Qed.

Lemma zero_batch_size_leaves_empty_file_witness :
  let r := worker_main Examples.two_candidates (Examples.cfg_of 0 10 "smiles")
             None Examples.no_files in
  outcome r = Raised ZeroDivisionError /\
  fs (final r) !! "out.csv" = Some EmptyString.
Proof.
  destruct (zero_batch_size_leaves_empty_file Examples.two_candidates
              (Examples.cfg_of 0 10 "smiles") None Examples.no_files
              eq_refl eq_refl eq_refl) as (Ho & _ & Hf & _).
  cbv zeta. split; [exact Ho|exact Hf].
Defined.

(** X4. With [generation_len <= 0] and [0 < batch_size < 2^53] the loop
    has no round: the generator is never called and the output file is
    created and left empty. The run returns, printing that it saved the
    file, unless the quotient is too large for a float, which raises
    [OverflowError]; for [generation_len = 0] it returns. *)
Theorem nothing_to_generate (w : World) (cfg : Cfg.t) (rank : option nat) (st : Proc) :
  is_coordinator rank = true ->
  fs st !! Cfg.output_file_path cfg = None ->
  Cfg.generation_len cfg <= 0 ->
  0 < Cfg.batch_size cfg < 2 ^ 53 ->
  let r := worker_main w cfg rank st in
  generate_calls (trace r) = [] /\
  fs (final r) !! Cfg.output_file_path cfg = Some EmptyString /\
  (outcome r = Returned tt /\ last (trace r) = Some (EPrint (saved_in cfg))
   \/ outcome r = Raised OverflowError) /\
  (Cfg.generation_len cfg = 0 -> outcome r = Returned tt).
Proof.
  intros Hrole Hfile Hlen [Hbs _]. cbv zeta.
  rewrite (worker_main_fresh w cfg rank Hrole st Hfile). cbv zeta.
  assert (Hopen : fs (opened cfg st) !! Cfg.output_file_path cfg = Some EmptyString)
    by (unfold opened; cbn; apply lookup_insert_eq).
  assert (Hs : generate_calls (startup cfg rank) = [])
    by (destruct (coordinator_rank rank Hrole) as [-> | ->]; reflexivity).
  assert (Hzero : Cfg.generation_len cfg = 0 ->
            PyNum.ceil_truediv (Cfg.generation_len cfg) (Cfg.batch_size cfg) = Ok 0).
  { intros ->. unfold PyNum.ceil_truediv, PyNum.int_truediv.
    replace (Cfg.batch_size cfg =? 0) with false by (symmetry; apply Z.eqb_neq; lia).
    cbn. by replace (Cfg.batch_size cfg <? 0) with false
      by (symmetry; apply Z.ltb_ge; lia). }
  destruct (ceil_truediv_nonpos _ _ Hlen Hbs) as [(n & Hn & Hle) | Hover].
  - rewrite Hn.
    assert (range n = []) as -> by (unfold range; by replace (Z.to_nat n) with 0%nat by lia).
    cbn [for_each ret trace final outcome].
    rewrite !generate_calls_app, Hs. split_and!; auto.
    left. split; [reflexivity|]. rewrite app_nil_l. apply last_snoc.
  - rewrite Hover. cbn [trace final outcome].
    rewrite generate_calls_app, Hs. split_and!; auto.
    intros H0. rewrite (Hzero H0) in Hover. discriminate.
Qed.

Lemma nothing_to_generate_witness :
  let r := worker_main Examples.two_candidates (Examples.cfg_of 4 (-3) "selfies")
             (Some 0%nat) Examples.no_files in
  generate_calls (trace r) = [] /\
  fs (final r) !! "out.csv" = Some EmptyString /\
  outcome r = Returned tt.
Proof.
  destruct (nothing_to_generate Examples.two_candidates
              (Examples.cfg_of 4 (-3) "selfies") (Some 0%nat) Examples.no_files
              eq_refl eq_refl) as (Hc & Hf & _ & _).
  - vm_compute. discriminate.
  - vm_compute. split; reflexivity.
  - cbv zeta. split; [exact Hc|]. split; [exact Hf|]. vm_compute. reflexivity.
Defined.

(** X5. A coordinator run that returns has asked for at least
    [generation_len] samples and for less than one batch more: with [n]
    calls of [batch_size] prompts each,
    [generation_len <= n * batch_size < generation_len + batch_size]
    (both numbers positive and below [2^53]). *)
Theorem over_generation_below_one_batch (w : World) (cfg : Cfg.t)
    (rank : option nat) (st : Proc) :
  0 < Cfg.generation_len cfg < 2 ^ 53 ->
  0 < Cfg.batch_size cfg < 2 ^ 53 ->
  is_coordinator rank = true ->
  let r := worker_main w cfg rank st in
  outcome r = Returned tt ->
  let asked := Z.of_nat (length (generate_calls (trace r))) * Cfg.batch_size cfg in
  Cfg.generation_len cfg <= asked < Cfg.generation_len cfg + Cfg.batch_size cfg.
Proof.
  intros Hlen Hbs Hrole. cbv zeta.
  destruct (fs st !! Cfg.output_file_path cfg) as [content|] eqn:Hfile.
  { rewrite (worker_main_exists w cfg rank Hrole st) by eauto. discriminate. }
  rewrite (worker_main_fresh w cfg rank Hrole st Hfile). cbv zeta.
  rewrite (PyNumFacts.ceil_truediv_exact _ _ Hlen Hbs).
  set (rounds := (Cfg.generation_len cfg + Cfg.batch_size cfg - 1) / Cfg.batch_size cfg).
  pose proof (for_each_round_shape w cfg (Cfg.output_file_path cfg)
                (build_request cfg) (range rounds) (opened cfg st))
    as (_ & _ & _ & Hret & _).
  cbv zeta in Hret.
  assert (Hrange : length (range rounds) = Z.to_nat rounds)
    by (unfold range; apply length_seq).
  destruct (outcome (for_each _ _ _)) as [[]|e|]; cbn [trace outcome];
    [|discriminate|discriminate].
  intros _. rewrite !generate_calls_app, !length_app, (Hret eq_refl), Hrange.
  assert (Hs : length (generate_calls (startup cfg rank)) = 0%nat)
    by (destruct (coordinator_rank rank Hrole) as [-> | ->]; reflexivity).
  rewrite Hs. cbn [generate_calls omap list_omap length].
  pose proof (Z.div_mod (Cfg.generation_len cfg + Cfg.batch_size cfg - 1)
                (Cfg.batch_size cfg) ltac:(lia)) as Hdm.
  pose proof (Z.mod_pos_bound (Cfg.generation_len cfg + Cfg.batch_size cfg - 1)
                (Cfg.batch_size cfg) ltac:(lia)) as Hmod.
  fold rounds in Hdm.
  assert (0 <= rounds) by (apply Z.div_pos; lia).
  replace (Z.of_nat (0 + 0 + (Z.to_nat rounds + 0))) with rounds by lia.
  nia.
Qed.

Lemma over_generation_below_one_batch_witness :
  let r := worker_main Examples.two_candidates (Examples.cfg_of 4 10 "smiles")
             None Examples.no_files in
  10 <= Z.of_nat (length (generate_calls (trace r))) * 4 < 10 + 4.
Proof.
  apply (over_generation_below_one_batch Examples.two_candidates
           (Examples.cfg_of 4 10 "smiles") None Examples.no_files).
  - vm_compute. split; reflexivity.
  - vm_compute. split; reflexivity.
  - reflexivity.
  - vm_compute. reflexivity.
Defined.

(* ===================================================================== *)
(** ** More on [worker_main]: failures and the validate path *)
(* ===================================================================== *)

Lemma round_passes_returns (w : World) (cfg : Cfg.t) (csv : string) (req : Req.t)
    (i : nat) (st : Proc) :
  round_passes w req i ->
  outcome (round w cfg csv req i st) = Returned tt /\
  length (generate_calls (trace (round w cfg csv req i st))) = 1%nat.
Proof.
  intros (gens & texts & Hg & Hf).
  destruct (decide (Cfg.mol_repr cfg = "smiles")) as [Hm|Hm].
  - by rewrite (round_smiles _ _ _ _ _ _ _ _ Hm Hg Hf).
  - destruct (validate w i texts) as [block|e] eqn:Hv.
    + by rewrite (round_validate_ok _ _ _ _ _ _ _ _ _ Hm Hg Hf Hv).
    + by rewrite (round_validate_raises _ _ _ _ _ _ _ _ _ Hm Hg Hf Hv).
Qed.

(** The loop over the indices [s, s+1, ...] when the generator raises at
    [s + k] and the rounds before get through. *)
Lemma for_each_generate_raises (w : World) (cfg : Cfg.t) (csv : string)
    (req : Req.t) (e : exn) (k : nat) :
  forall (s n : nat) (st : Proc),
    (k < n)%nat ->
    (forall i, (s <= i < s + k)%nat -> round_passes w req i) ->
    generate w (s + k) req = Raise e ->
    let r := for_each (seq s n) (round w cfg csv req) st in
    outcome r = Raised e /\
    length (generate_calls (trace r)) = S k /\
    last (trace r) = Some (EGenerate (Some req)).
Proof.
  induction k as [|k IH]; intros s n st Hk Hpass Hraise; cbv zeta.
  - destruct n as [|n]; [lia|]. cbn [seq]. rewrite for_each_cons. cbv zeta.
    rewrite Nat.add_0_r in Hraise.
    rewrite (round_generate_raises _ _ _ _ _ _ _ Hraise). cbn. auto.
  - destruct n as [|n]; [lia|]. cbn [seq]. rewrite for_each_cons. cbv zeta.
    destruct (round_passes_returns w cfg csv req s st (Hpass s ltac:(lia)))
      as [Ho Hc].
    rewrite Ho.
    destruct (IH (S s) n (final (round w cfg csv req s st)) ltac:(lia))
      as (Ho' & Hc' & Hl').
    + intros i Hi. apply Hpass. lia.
    + by replace (S s + k)%nat with (s + S k)%nat by lia.
    + cbn [trace outcome].
      rewrite generate_calls_app, length_app, Hc, Hc'.
      split_and!; [done|done|].
      destruct (trace (for_each (seq (S s) n) _ _)) as [|ev t] eqn:Et;
        [discriminate Hl'|].
      rewrite last_app. by rewrite Hl'.
Qed.

(** X6. An exception of [generator.generate] ends the run. For
    [0 < generation_len < 2^53] and [0 < batch_size < 2^53], when the
    call of round [k] is the first to raise, the coordinator raises the
    same exception; it has made [k + 1] calls, the failing call is the
    last thing it did (no write, no closing message), and the file,
    started from nothing, holds the blocks written before. *)
Theorem generator_failure_is_fatal (w : World) (cfg : Cfg.t) (rank : option nat)
    (st : Proc) (k : nat) (e : exn) :
  0 < Cfg.generation_len cfg < 2 ^ 53 ->
  0 < Cfg.batch_size cfg < 2 ^ 53 ->
  is_coordinator rank = true ->
  fs st !! Cfg.output_file_path cfg = None ->
  (k < Z.to_nat ((Cfg.generation_len cfg + Cfg.batch_size cfg - 1)
                 / Cfg.batch_size cfg))%nat ->
  (forall i, (i < k)%nat -> round_passes w (build_request cfg) i) ->
  generate w k (build_request cfg) = Raise e ->
  let r := worker_main w cfg rank st in
  outcome r = Raised e /\
  length (generate_calls (trace r)) = S k /\
  last (trace r) = Some (EGenerate (Some (build_request cfg))) /\
  fs (final r) !! Cfg.output_file_path cfg
    = Some (String.concat EmptyString (writes (trace r))).
Proof.
  intros Hlen Hbs Hrole Hfile Hk Hpass Hraise. cbv zeta.
  pose proof (PyNumFacts.ceil_truediv_exact _ _ Hlen Hbs) as Hceil.
  set (rounds := (Cfg.generation_len cfg + Cfg.batch_size cfg - 1)
                 / Cfg.batch_size cfg) in *.
  pose proof (coordinator_final w cfg rank st Hrole Hfile) as Hfinal.
  rewrite (worker_main_fresh w cfg rank Hrole st Hfile) in *. cbv zeta in *.
  rewrite Hceil in *. unfold range in *.
  destruct (for_each_generate_raises w cfg (Cfg.output_file_path cfg)
              (build_request cfg) e k 0 (Z.to_nat rounds) (opened cfg st) Hk)
    as (Ho & Hc & Hl).
  { intros i Hi. apply Hpass. lia. }
  { exact Hraise. }
  rewrite Ho in *. cbn [trace final outcome] in *.
  assert (Hs : generate_calls (startup cfg rank) = [])
    by (destruct (coordinator_rank rank Hrole) as [-> | ->]; reflexivity).
  split_and!.
  - reflexivity.
  - rewrite !generate_calls_app, !length_app, Hs, Hc. reflexivity.
  - destruct (trace (for_each _ _ _)) as [|ev t] eqn:Et; [discriminate Hl|].
    rewrite last_app. by rewrite Hl.
  - rewrite Hfinal. rewrite (written_file _ _ _ EmptyString); [reflexivity|].
    unfold opened. cbn. apply lookup_insert_eq.
Qed.

Lemma generator_failure_is_fatal_witness :
  let r := worker_main (Samples.fails_from 1) (Examples.cfg_of 2 6 "smiles")
             None Examples.no_files in
  outcome r = Raised (ServiceError "generate") /\
  length (generate_calls (trace r)) = 2%nat /\
  fs (final r) !! "out.csv" = Some (String.concat nl ["CC"; "CC"] ++ nl)%string.
Proof.
  destruct (generator_failure_is_fatal (Samples.fails_from 1)
              (Examples.cfg_of 2 6 "smiles") None Examples.no_files 1%nat
              (ServiceError "generate"))
    as (Ho & Hc & _ & _).
  - vm_compute. split; reflexivity.
  - vm_compute. split; reflexivity.
  - reflexivity.
  - reflexivity.
  - vm_compute. lia.
  - intros i Hi. assert (i = 0%nat) as -> by lia.
    eexists _, _. split; reflexivity.
  - reflexivity.
  - cbv zeta. split; [exact Ho|]. split; [exact Hc|].
    vm_compute. reflexivity.
Defined.

Lemma first_text_raises_index (gens : Generations) :
  [] ∈ gens -> map_result first_text gens = Raise IndexError.
Proof.
  induction gens as [|x gens IH]; intros Hin; [by apply elem_of_nil in Hin|].
  apply elem_of_cons in Hin as [<- | Hin]; [reflexivity|].
  cbn. destruct x as [|c x]; [reflexivity|]. cbn. by rewrite IH.
Qed.

(** X7. A slot that comes back from the generator without a candidate
    makes the round raise [IndexError], in pass-through and in validate
    mode alike (the indexing is outside the [try]): nothing of the round
    is written and the state is as before. *)
Theorem empty_slot_is_fatal (w : World) (cfg : Cfg.t) (csv : string)
    (req : Req.t) (i : nat) (st : Proc) (gens : Generations) :
  generate w i req = Ok gens ->
  [] ∈ gens ->
  round w cfg csv req i st = mkRun [EGenerate (Some req)] st (Raised IndexError).
Proof.
  intros Hg Hin. eapply round_first_text_raises; [exact Hg|].
  by apply first_text_raises_index.
Qed.

Lemma empty_slot_is_fatal_witness :
  let cfg := Examples.cfg_of 2 2 "selfies" in
  outcome (worker_main Samples.empty_slot cfg None Examples.no_files)
    = Raised IndexError /\
  round Samples.empty_slot cfg "out.csv" (build_request cfg) 0
        (opened cfg Examples.no_files)
    = mkRun [EGenerate (Some (build_request cfg))] (opened cfg Examples.no_files)
            (Raised IndexError).
Proof.
  cbv zeta. split; [vm_compute; reflexivity|].
  apply (empty_slot_is_fatal Samples.empty_slot (Examples.cfg_of 2 2 "selfies")
           "out.csv" _ 0%nat _ [[mkCandidate "CC" []]; []]).
  - reflexivity.
  - apply list_elem_of_further, list_elem_of_here.
Defined.

(** X8. In validate mode, when the pool runs and every text of the round
    decodes and canonicalizes, the round writes one block: the canonical
    strings in the order of the slots, joined by newlines and closed by
    one. *)
Theorem validated_round_keeps_order (w : World) (cfg : Cfg.t) (csv : string)
    (req : Req.t) (i : nat) (st : Proc) (gens : Generations)
    (texts canon : list string) :
  Cfg.mol_repr cfg <> "smiles" ->
  generate w i req = Ok gens ->
  Forall2 (fun x t => option_map text (head x) = Some t) gens texts ->
  pool w i = Ok tt ->
  Forall2 (fun t c => make_caninical_smiles w t = Ok (Some c)) texts canon ->
  let block := (String.concat nl canon ++ nl)%string in
  round w cfg csv req i st =
    mkRun [EGenerate (Some req); EWrite block] (appended csv block st) (Returned tt) /\
  length canon = length gens.
Proof.
  intros Hm Hg Hheads Hpool Hcanon. cbv zeta. split.
  - eapply round_validate_ok; eauto using first_texts_of_heads.
    unfold validate, join. rewrite Hpool. cbn.
    rewrite (map_result_of_Forall2 _ _ (map Some canon)).
    + cbn. rewrite (map_result_of_Forall2 _ _ canon); [reflexivity|].
      clear. induction canon; constructor; auto.
    + clear -Hcanon. induction Hcanon; constructor; auto.
  - apply Forall2_length in Hheads, Hcanon. congruence.
Qed.

Lemma validated_round_keeps_order_witness :
  let cfg := Examples.cfg_of 3 3 "selfies" in
  writes (trace (round Samples.doubling cfg "out.csv" (build_request cfg) 0
                   (opened cfg Examples.no_files)))
    = [String.concat nl ["CC"; "NN"; "OO"] ++ nl]%string.
Proof.
  cbv zeta.
  destruct (validated_round_keeps_order Samples.doubling
              (Examples.cfg_of 3 3 "selfies") "out.csv"
              (build_request (Examples.cfg_of 3 3 "selfies")) 0%nat
              (opened (Examples.cfg_of 3 3 "selfies") Examples.no_files)
              [[mkCandidate "C" []]; [mkCandidate "N" []]; [mkCandidate "O" []]]
              ["C"; "N"; "O"] ["CC"; "NN"; "OO"]) as [Hr _].
  - discriminate.
  - reflexivity.
  - repeat constructor.
  - reflexivity.
  - repeat constructor.
  - rewrite Hr. reflexivity.
Defined.

(* ===================================================================== *)
(** ** More on [worker_main]: the other ranks *)
(* ===================================================================== *)

Lemma worker_loop_calls (w : World) (r k : nat) (pending : list (option Req.t))
    (files : gmap string string) :
  let run := worker_loop w (S r) k pending (mkProc files pending) in
  generate_calls (trace run) `prefix_of` pending /\
  writes (trace run) = [] /\
  (outcome run = Blocked -> generate_calls (trace run) = pending).
Proof.
  revert k. induction pending as [|v pending IH]; intros k.
  - cbn. split_and!; auto.
  - specialize (IH (S k)). cbv zeta in *. destruct IH as (Hp & Hw & Hb).
    rewrite worker_loop_cons.
    destruct (match v with Some q => generate w k q | None => Raise TypeError end)
      as [gens|e].
    + cbv zeta.
      set (run := worker_loop w (S r) (S k) pending _) in *. clearbody run.
      unfold generate_calls, writes in *. cbn. split_and!.
      * by apply prefix_cons.
      * exact Hw.
      * intros Ho. f_equal. by apply Hb.
    + cbn. split_and!; auto; [|discriminate].
      apply prefix_cons, prefix_nil.
Qed.

(** X9. A rank other than 0 never returns from [worker_main] and never
    exits: it ends blocked on a broadcast or with an exception. It never
    looks at the output path and never writes; the files are as they
    were. Its [generate] calls are the values it received after the
    start-up broadcast, in order: all of them when it ends blocked. *)
Theorem worker_never_returns (w : World) (cfg : Cfg.t) (r : nat) (st : Proc) :
  let run := worker_main w cfg (Some (S r)) st in
  outcome run <> Returned tt /\
  exists_checks (trace run) = [] /\
  writes (trace run) = [] /\
  fs (final run) = fs st /\
  generate_calls (trace run) `prefix_of` tail (inbox st) /\
  (outcome run = Blocked -> generate_calls (trace run) = tail (inbox st)).
Proof.
  destruct st as [files box]. cbv zeta. rewrite worker_main_worker.
  destruct box as [|v rest]; cbv zeta.
  - cbn. split_and!; auto; discriminate.
  - pose proof (worker_loop_shape w r 0 rest files) as (_ & He & Ho & _ & Hf).
    pose proof (worker_loop_calls w r 0 rest files) as (Hp & Hw & Hb).
    cbv zeta in *.
    set (run := worker_loop w (S r) 0 rest _) in *. clearbody run.
    cbn [trace final outcome fs inbox tail].
    unfold exists_checks, writes, generate_calls in *. cbn.
    split_and!; auto.
Qed.

Lemma worker_loop_none (w : World) (r : nat) (files : gmap string string)
    (rest : list (option Req.t)) (reqs : list Req.t) :
  forall k,
    (forall j q, reqs !! j = Some q -> exists g, generate w (k + j) q = Ok g) ->
    let pending := (map Some reqs ++ None :: rest)%list in
    let run := worker_loop w (S r) k pending (mkProc files pending) in
    outcome run = Raised TypeError /\
    generate_calls (trace run) = (map Some reqs ++ [None])%list /\
    inbox (final run) = rest.
Proof.
  induction reqs as [|q reqs IH]; intros k Hok; cbv zeta.
  - cbn [map app]. rewrite worker_loop_cons. cbn. auto.
  - cbn [map app]. rewrite worker_loop_cons.
    destruct (Hok 0%nat q eq_refl) as [g Hg]. rewrite Nat.add_0_r in Hg.
    rewrite Hg. cbv zeta.
    destruct (IH (S k)) as (Ho & Hc & Hi).
    { intros j q' Hj. replace (S k + j)%nat with (k + S j)%nat by lia.
      by apply Hok. }
    cbv zeta in Ho, Hc, Hi.
    set (run := worker_loop w (S r) (S k) _ _) in *. clearbody run.
    unfold generate_calls in *. cbn. rewrite Hc. auto.
Qed.

(** X10. A rank other than 0 that receives [None] inside its loop ends
    with [TypeError]: [generate] cannot unpack it. Up to there it has
    called the generator once per request received, in order; whatever
    was published after the [None] stays unreceived. *)
Theorem worker_none_is_type_error (w : World) (cfg : Cfg.t) (r : nat)
    (files : gmap string string) (v0 : option Req.t) (reqs : list Req.t)
    (rest : list (option Req.t)) :
  (forall j q, reqs !! j = Some q -> exists g, generate w j q = Ok g) ->
  let run := worker_main w cfg (Some (S r))
               (mkProc files (v0 :: map Some reqs ++ None :: rest)) in
  outcome run = Raised TypeError /\
  generate_calls (trace run) = (map Some reqs ++ [None])%list /\
  inbox (final run) = rest.
Proof.
  intros Hok. cbv zeta. rewrite worker_main_worker. cbv zeta.
  destruct (worker_loop_none w r files rest reqs 0 Hok) as (Ho & Hc & Hi).
  cbv zeta in Ho, Hc, Hi.
  set (run := worker_loop w (S r) 0 _ _) in *. clearbody run.
  cbn [trace final outcome]. unfold generate_calls in *. cbn. auto.
Qed.

Lemma worker_none_is_type_error_witness :
  let q := build_request (Examples.cfg_of 1 1 "smiles") in
  let run := worker_main Examples.two_candidates (Examples.cfg_of 1 1 "smiles")
               (Some 1%nat) (mkProc ∅ [None; Some q; None; Some q]) in
  outcome run = Raised TypeError /\
  generate_calls (trace run) = [Some q; None] /\
  inbox (final run) = [Some q].
Proof.
  apply (worker_none_is_type_error Examples.two_candidates
           (Examples.cfg_of 1 1 "smiles") 0 ∅ None
           [build_request (Examples.cfg_of 1 1 "smiles")]
           [Some (build_request (Examples.cfg_of 1 1 "smiles"))]).
  intros j q Hj. eexists. reflexivity.
Defined.

(* ===================================================================== *)
(** ** [input_loop] *)
(* ===================================================================== *)

Module InputLoopFacts.
Import InputLoop.

Lemma loop_Line (inp : list string) (data : string) (stdin : list Key) :
  loop inp (Line data :: stdin) =
  let r := loop (inp ++ [data]) stdin in
  mkRun (OPrompt (display inp) :: OWrite reset :: out r) (unread r) (ended r).
Proof. reflexivity. Qed.

Lemma prompts_of_display (inp : list string) (o : list Out) :
  prompts_shown (OPrompt (display inp) :: o) =
  (match inp with [] => [green_prompt] | _ :: _ => [] end ++ prompts_shown o)%list.
Proof. destruct inp; reflexivity. Qed.

(** The lines read before the stream ends are appended to [inp], one
    reset is written per line, and only a first read shows the prompt.
    [stop] is what ends the reading: end of input or an interrupt. *)
Lemma loop_lines (ls : list string) (stop : list Key) :
  (stop = [] \/ exists k rest, stop = k :: rest /\ (k = CtrlD \/ k = CtrlC)) ->
  forall inp,
    let r := loop inp (map Line ls ++ stop) in
    let r0 := loop (inp ++ ls) stop in
    ended r = ended r0 /\
    unread r = unread r0 /\
    debugged (out r) = debugged (out r0) /\
    written_out (out r) = (replicate (length ls) reset ++ written_out (out r0))%list /\
    prompts_shown (out r) = match inp with [] => [green_prompt] | _ :: _ => [] end.
Proof.
  intros Hstop. induction ls as [|l ls IH]; intros inp; cbv zeta.
  - cbn [map app length replicate]. rewrite app_nil_r. split_and!; auto.
    destruct Hstop as [-> | (k & rest & -> & [-> | ->])];
      cbn [loop out]; rewrite prompts_of_display; cbn; by rewrite app_nil_r.
  - cbn [map app]. rewrite loop_Line. cbv zeta. cbn [out unread ended].
    specialize (IH (inp ++ [l])%list). cbv zeta in IH.
    rewrite <- app_assoc in IH. cbn [app] in IH.
    destruct IH as (He & Hu & Hd & Hw & Hp).
    split_and!; auto.
    + unfold written_out in *. cbn. by rewrite Hw.
    + rewrite prompts_of_display.
      change (prompts_shown (OWrite reset :: ?o)) with (prompts_shown o).
      unfold prompts_shown in *. cbn. rewrite Hp.
      destruct inp; cbn; reflexivity.
Qed.

Lemma returned_value (ls : list string) (rest : list Key) :
  ended (input_loop (map Line ls ++ CtrlD :: rest)) = Entered (String.concat nl ls).
Proof.
  unfold input_loop.
  destruct (loop_lines ls (CtrlD :: rest) ltac:(right; eauto) []) as (He & _).
  cbv zeta in He. rewrite He. reflexivity.
Qed.

End InputLoopFacts.

(** X11. [input_loop] returns the lines entered before the first end of
    input, joined by newlines, and reads nothing after it. It shows the
    prompt once, on the first read, writes one formatting reset per line
    read, and logs the lines once. A stream that is closed counts as end
    of input. *)
Theorem input_loop_until_eof (ls : list string) (rest : list InputLoop.Key) :
  let r := InputLoop.input_loop (map InputLoop.Line ls ++ InputLoop.CtrlD :: rest) in
  let r' := InputLoop.input_loop (map InputLoop.Line ls) in
  InputLoop.ended r = InputLoop.Entered (String.concat nl ls) /\
  InputLoop.unread r = rest /\
  InputLoop.debugged (InputLoop.out r) = [ls] /\
  InputLoop.written_out (InputLoop.out r)
    = replicate (length ls) InputLoop.reset /\
  InputLoop.prompts_shown (InputLoop.out r) = [InputLoop.green_prompt] /\
  InputLoop.ended r' = InputLoop.ended r /\
  InputLoop.out r' = InputLoop.out r.
Proof.
  cbv zeta. unfold InputLoop.input_loop.
  destruct (InputLoopFacts.loop_lines ls (InputLoop.CtrlD :: rest)
              ltac:(right; eauto) []) as (He & Hu & Hd & Hw & Hp).
  cbv zeta in *. cbn [app InputLoop.loop InputLoop.ended InputLoop.unread
                      InputLoop.out] in *.
  rewrite He, Hu, Hd, Hw, Hp. cbn. rewrite app_nil_r.
  split_and!; auto.
  - destruct (InputLoopFacts.loop_lines ls [] ltac:(left; reflexivity) [])
      as (He' & _).
    cbv zeta in He'. cbn in He'. rewrite app_nil_r in He'. exact He'.
  - clear. generalize (@nil string).
    induction ls as [|l ls IH]; intros inp; [reflexivity|].
    cbn [map app]. rewrite !InputLoopFacts.loop_Line. cbv zeta.
    cbn [InputLoop.out]. by rewrite IH.
Qed.

(** X12. An interrupt makes [input_loop] write the formatting reset and
    raise [KeyboardInterrupt] again: the lines read so far are neither
    returned nor logged, and the reset is the last thing written. *)
Theorem input_loop_interrupt (ls : list string) (rest : list InputLoop.Key) :
  let r := InputLoop.input_loop (map InputLoop.Line ls ++ InputLoop.CtrlC :: rest) in
  InputLoop.ended r = InputLoop.KeyboardInterrupt /\
  InputLoop.unread r = rest /\
  InputLoop.debugged (InputLoop.out r) = [] /\
  InputLoop.written_out (InputLoop.out r)
    = replicate (S (length ls)) InputLoop.reset /\
  last (InputLoop.out r) = Some (InputLoop.OWrite InputLoop.reset).
Proof.
  cbv zeta. unfold InputLoop.input_loop.
  destruct (InputLoopFacts.loop_lines ls (InputLoop.CtrlC :: rest)
              ltac:(right; eauto) []) as (He & Hu & Hd & Hw & _).
  cbv zeta in *. cbn [app InputLoop.loop InputLoop.ended InputLoop.unread
                      InputLoop.out] in *.
  rewrite He, Hu, Hd, Hw. split_and!; auto.
  - cbn. rewrite <- replicate_cons_app. reflexivity.
  - clear. generalize (@nil string).
    induction ls as [|l ls IH]; intros inp; [reflexivity|].
    cbn [map app]. rewrite InputLoopFacts.loop_Line. cbv zeta.
    cbn [InputLoop.out]. specialize (IH (inp ++ [l])%list).
    destruct (InputLoop.out _) as [|o os] eqn:Eo; [discriminate IH|].
    cbn [last] in *. exact IH.
Qed.

(** X13. The value [input_loop] returns tells which lines were entered,
    when there was at least one: two non-empty inputs with the same
    result are the same lines. But entering nothing and entering one
    empty line give the same result, the empty string. *)
Theorem input_loop_read_back (ls ls' : list string) :
  ls <> [] -> ls' <> [] ->
  Forall (fun s => one_line s = true) ls ->
  Forall (fun s => one_line s = true) ls' ->
  (InputLoop.ended (InputLoop.input_loop (map InputLoop.Line ls ++ [InputLoop.CtrlD]))
   = InputLoop.ended (InputLoop.input_loop (map InputLoop.Line ls' ++ [InputLoop.CtrlD]))
   -> ls = ls') /\
  InputLoop.ended (InputLoop.input_loop [InputLoop.CtrlD])
  = InputLoop.ended (InputLoop.input_loop [InputLoop.Line EmptyString; InputLoop.CtrlD]).
Proof.
  intros Hne Hne' Hone Hone'. split; [|reflexivity].
  rewrite !InputLoopFacts.returned_value.
  intros H. inversion H as [Heq].
  rewrite <- (app_nil_r ls), <- (app_nil_r ls').
  change (@nil string) with (lines EmptyString).
  rewrite <- (lines_block ls EmptyString Hne Hone).
  rewrite <- (lines_block ls' EmptyString Hne' Hone').
  by rewrite Heq.
Qed.

Lemma input_loop_read_back_witness :
  Forall (fun s => one_line s = true) ["CCO"; EmptyString] /\
  InputLoop.ended (InputLoop.input_loop
                     [InputLoop.Line "CCO"; InputLoop.Line ""; InputLoop.CtrlD])
    = InputLoop.Entered ("CCO" ++ nl) /\
  InputLoop.ended (InputLoop.input_loop [InputLoop.CtrlD])
    = InputLoop.ended (InputLoop.input_loop [InputLoop.Line EmptyString; InputLoop.CtrlD]).
Proof.
  split; [repeat constructor|]. split; [reflexivity|].
  refine (proj2 (input_loop_read_back ["CCO"; EmptyString] ["CCO"; EmptyString]
                   _ _ _ _)).
  - discriminate.
  - discriminate.
  - repeat constructor.
  - repeat constructor.
Defined.

(* ===================================================================== *)
(** ** The block under [__main__] *)
(* ===================================================================== *)

(** X14. After the block [SLURM_NODEID] is always set, and running the
    block again, on any host, changes nothing and warns about nothing. *)
Theorem slurm_defaults_idempotent (hostname hostname' : string)
    (environ : gmap string string) :
  let environ' := (Main.slurm_defaults hostname environ).2 in
  is_Some (environ' !! "SLURM_NODEID") /\
  Main.slurm_defaults hostname' environ' = ([], environ').
Proof.
  cbv zeta.
  assert (Hset : is_Some ((Main.slurm_defaults hostname environ).2 !! "SLURM_NODEID")).
  { unfold Main.slurm_defaults.
    destruct (environ !! "SLURM_NODEID") as [v|] eqn:E; cbn [snd].
    - rewrite E. eauto.
    - rewrite !lookup_insert_ne by discriminate. rewrite lookup_insert_eq. eauto. }
  split; [exact Hset|]. destruct Hset as [v Hv].
  set (environ' := (Main.slurm_defaults hostname environ).2) in *.
  unfold Main.slurm_defaults. rewrite Hv. reflexivity.
Qed.

(** X15. The defaults are all or nothing, keyed on [SLURM_NODEID] alone.
    Without it the four variables are set to [0], [1], [1] and the host
    name, replacing whatever the other three held, one warning is
    logged and every other variable is kept. With it the environment is
    left as it is, even when the other three are missing. *)
Theorem slurm_defaults_all_or_nothing (hostname : string)
    (environ : gmap string string) :
  (environ !! "SLURM_NODEID" = None ->
   let r := Main.slurm_defaults hostname environ in
   r.1 = [Main.warning] /\
   r.2 !! "SLURM_NODEID" = Some "0"%string /\
   r.2 !! "SLURM_NNODES" = Some "1"%string /\
   r.2 !! "SLURM_NTASKS" = Some "1"%string /\
   r.2 !! "SLURM_STEP_NODELIST" = Some hostname /\
   forall k : string,
     k ∉ ["SLURM_NODEID"; "SLURM_NNODES"; "SLURM_NTASKS"; "SLURM_STEP_NODELIST"]%string ->
     r.2 !! k = environ !! k) /\
  (is_Some (environ !! "SLURM_NODEID") ->
   Main.slurm_defaults hostname environ = ([], environ)).
Proof.
  split.
  - intros Hno. cbv zeta. unfold Main.slurm_defaults. rewrite Hno. cbn [fst snd].
    split_and!.
    + reflexivity.
    + rewrite !lookup_insert_ne by discriminate. apply lookup_insert_eq.
    + rewrite !lookup_insert_ne by discriminate. apply lookup_insert_eq.
    + rewrite !lookup_insert_ne by discriminate. apply lookup_insert_eq.
    + apply lookup_insert_eq.
    + intros k Hk.
      rewrite !lookup_insert_ne; [reflexivity|..];
        intros <-; apply Hk; repeat constructor.
  - intros [v Hv]. unfold Main.slurm_defaults. by rewrite Hv.
Qed.

Lemma slurm_defaults_all_or_nothing_witness :
  (Main.slurm_defaults "node1" (<["SLURM_NTASKS" := "8"]> ∅)).2 !! "SLURM_NTASKS"
    = Some "1"%string /\
  Main.slurm_defaults "node1" (<["SLURM_NODEID" := "3"]> ∅)
    = ([], <["SLURM_NODEID" := "3"]> ∅).
Proof.
  split.
  - destruct (slurm_defaults_all_or_nothing "node1" (<["SLURM_NTASKS" := "8"]> ∅))
      as [H _].
    destruct (H eq_refl) as (_ & _ & _ & Ht & _). exact Ht.
  - destruct (slurm_defaults_all_or_nothing "node1" (<["SLURM_NODEID" := "3"]> ∅))
      as [_ H].
    apply H. eexists. reflexivity.
Defined.

(* ===================================================================== *)
(** ** [cli_main]: the launch arguments *)
(* ===================================================================== *)

Module CliFacts.
Import Cli.

Lemma split_String (c : ascii) (s' : string) :
  split (String c s') =
  if isspace c then split s'
  else match s' with
       | EmptyString => [String c EmptyString]
       | String c' _ =>
           if isspace c' then String c EmptyString :: split s'
           else match split s' with
                | [] => [String c EmptyString]
                | t :: ts => String c t :: ts
                end
       end.
Proof. reflexivity. Qed.

Lemma word_no_space (t : string) : word t = true -> no_space t = true.
Proof. destruct t; [discriminate|auto]. Qed.

Lemma split_words (s : string) : Forall (fun t => word t = true) (split s).
Proof.
  induction s as [|c s IH]; [constructor|].
  rewrite split_String. destruct (isspace c) eqn:Ec; [exact IH|].
  assert (Hc : word (String c EmptyString) = true) by (cbn; by rewrite Ec).
  destruct s as [|c' s']; [by repeat constructor|].
  destruct (isspace c'); [by constructor|].
  destruct (split (String c' s')) as [|t ts]; [by repeat constructor|].
  apply Forall_cons in IH as [Ht Hts]. constructor; [|exact Hts].
  cbn. rewrite Ec. cbn. by apply word_no_space.
Qed.

Lemma flat_launch_args_concat (args : list string) :
  flat_launch_args args = concat (map split args).
Proof.
  unfold flat_launch_args.
  assert (H : forall acc, fold_left (fun flat s => (flat ++ split s)%list) args acc
                          = (acc ++ concat (map split args))%list).
  { induction args as [|a args IH]; intros acc; cbn.
    - by rewrite app_nil_r.
    - rewrite IH. by rewrite <- app_assoc. }
  apply (H []).
Qed.

Lemma split_word (t : string) : word t = true -> split t = [t].
Proof.
  induction t as [|a t IH]; [discriminate|]. intros Hw.
  cbn in Hw. apply andb_true_iff in Hw as [Ha Ht]. apply negb_true_iff in Ha.
  rewrite split_String, Ha.
  destruct t as [|a' t']; [reflexivity|].
  assert (Hw' : word (String a' t') = true) by exact Ht.
  cbn in Ht. apply andb_true_iff in Ht as [Ha' _]. apply negb_true_iff in Ha'.
  rewrite Ha', (IH Hw'). reflexivity.
Qed.

Lemma split_word_then (t : string) (c : ascii) (s : string) :
  word t = true -> isspace c = true ->
  split (t ++ String c s) = t :: split s.
Proof.
  intros Hw Hc. induction t as [|a t IH]; [discriminate|].
  cbn in Hw. apply andb_true_iff in Hw as [Ha Ht]. apply negb_true_iff in Ha.
  destruct t as [|a' t'].
  - change (String a EmptyString ++ String c s)%string with (String a (String c s)).
    rewrite split_String, Ha, Hc, split_String, Hc. reflexivity.
  - assert (Hw' : word (String a' t') = true) by exact Ht.
    cbn in Ht. apply andb_true_iff in Ht as [Ha' _]. apply negb_true_iff in Ha'.
    specialize (IH Hw').
    change (String a (String a' t') ++ String c s)%string
      with (String a (String a' (t' ++ String c s))).
    change (String a' t' ++ String c s)%string
      with (String a' (t' ++ String c s)) in IH.
    rewrite split_String, Ha, Ha', IH. reflexivity.
Qed.

(** Words joined by single blanks split into these words again. *)
Lemma split_join (toks : list string) :
  Forall (fun t => word t = true) toks ->
  split (String.concat " " toks) = toks.
Proof.
  induction 1 as [|t toks Ht _ IH]; [reflexivity|].
  destruct toks as [|t' toks'].
  - cbn. by apply split_word.
  - change (String.concat " " (t :: t' :: toks'))
      with (t ++ String " "%char (String.concat " " (t' :: toks')))%string.
    rewrite split_word_then by done. by rewrite IH.
Qed.

End CliFacts.

(** X16. Whatever the launch arguments are, no word of
    [flat_launch_args] is empty and none contains white space. *)
Theorem flat_launch_args_words (args : list string) :
  Forall (fun t => Cli.word t = true) (Cli.flat_launch_args args).
Proof.
  rewrite CliFacts.flat_launch_args_concat.
  induction args as [|a args IH]; [constructor|].
  cbn. apply Forall_app. split; [apply CliFacts.split_words|exact IH].
Qed.

(** X17. When every launch argument is a flag with its values, words
    separated by single blanks, [flat_launch_args] is these words, in
    the order of the arguments: the list handed to the option parser. *)
Theorem flat_launch_args_groups (groups : list (list string)) :
  Forall (Forall (fun t => Cli.word t = true)) groups ->
  Cli.flat_launch_args (map (String.concat " ") groups) = concat groups.
Proof.
  intros Hall. rewrite CliFacts.flat_launch_args_concat.
  induction Hall as [|g groups Hg _ IH]; [reflexivity|].
  cbn. rewrite IH. f_equal. by apply CliFacts.split_join.
Qed.

Lemma flat_launch_args_groups_witness :
  Cli.flat_launch_args Cli.LAUNCH_ARGS =
  [ "--task"; "language_modeling";
    "--hf-tokenizer"; "data-bin/tokenizers/tokenizer_selfies/tokenizer.json";
    "--bpe"; "hf_byte_bpe";
    "--path"; "Generations_aspirin_0.4_selfies/checkpoint_344000.pt";
    "--beam"; "1";
    "--sampling-topp"; "0.8";
    "--logprobs"; "0";
    "--generation-len"; "1000000";
    "--temperature"; "1";
    "--seed"; "3";
    "--description"; "top_0.8";
    "--output-file-path";
    "./Generations_aspirin_0.4_selfies/OPT_iter_344000_top_0.8_seed_3.csv";
    "--mol-repr"; "selfies";
    "--sampling";
    "--distributed-port"; "13000";
    "--checkpoint-shard-count"; "1";
    "--batch-size"; "3072";
    "--buffer-size"; "196608";
    "--max-tokens"; "196608";
    "/tmp" ]%string.
Proof.
  apply (flat_launch_args_groups
    [ ["--task"; "language_modeling"];
      ["--hf-tokenizer"; "data-bin/tokenizers/tokenizer_selfies/tokenizer.json"];
      ["--bpe"; "hf_byte_bpe"];
      ["--path"; "Generations_aspirin_0.4_selfies/checkpoint_344000.pt"];
      ["--beam"; "1"];
      ["--sampling-topp"; "0.8"];
      ["--logprobs"; "0"];
      ["--generation-len"; "1000000"];
      ["--temperature"; "1"];
      ["--seed"; "3"];
      ["--description"; "top_0.8"];
      ["--output-file-path";
       "./Generations_aspirin_0.4_selfies/OPT_iter_344000_top_0.8_seed_3.csv"];
      ["--mol-repr"; "selfies"];
      ["--sampling"];
      ["--distributed-port"; "13000"];
      ["--checkpoint-shard-count"; "1"];
      ["--batch-size"; "3072"];
      ["--buffer-size"; "196608"];
      ["--max-tokens"; "196608"];
      ["/tmp"] ]%string).
  repeat constructor.
Defined.

(* ===================================================================== *)
(** ** More on [worker_main]: the roles and the modes compared *)
(* ===================================================================== *)

(** X18. Rank 0 of an initialized process group runs exactly as a
    process without a group does, but for the one start-up broadcast of
    [None] after the log line: same outcome, same files, and the same
    trace around that broadcast. *)
Theorem rank0_is_standalone_plus_broadcast (w : World) (cfg : Cfg.t) (st : Proc) :
  let alone := worker_main w cfg None st in
  let rank0 := worker_main w cfg (Some 0%nat) st in
  outcome rank0 = outcome alone /\
  final rank0 = final alone /\
  trace rank0 = (take 3 (trace alone) ++ EBroadcast None :: drop 3 (trace alone))%list.
Proof.
  cbv zeta.
  destruct (fs st !! Cfg.output_file_path cfg) as [content|] eqn:Hfile.
  - rewrite (worker_main_exists w cfg None eq_refl st) by eauto.
    rewrite (worker_main_exists w cfg (Some 0%nat) eq_refl st) by eauto.
    cbn. auto.
  - rewrite (worker_main_fresh w cfg None eq_refl st Hfile).
    rewrite (worker_main_fresh w cfg (Some 0%nat) eq_refl st Hfile).
    cbv zeta.
    destruct (PyNum.ceil_truediv _ _) as [rounds|e]; [|cbn; auto].
    destruct (for_each _ _ _) as [t fin [[]|e|]]; cbn; auto.
Qed.

(** X19. The coordinator prints the closing message exactly when it
    returns: a run that started without the file ends on
    [Saved in <path>.] if and only if no exception left the loop. *)
Theorem saved_message_iff_returned (w : World) (cfg : Cfg.t) (rank : option nat)
    (st : Proc) :
  is_coordinator rank = true ->
  fs st !! Cfg.output_file_path cfg = None ->
  let r := worker_main w cfg rank st in
  outcome r = Returned tt <-> last (trace r) = Some (EPrint (saved_in cfg)).
Proof.
  intros Hrole Hfile. cbv zeta.
  rewrite (worker_main_fresh w cfg rank Hrole st Hfile). cbv zeta.
  set (head := (startup cfg rank ++ _)%list).
  assert (Hhead : forall t e, Forall (round_event (build_request cfg)) t ->
            last (head ++ t) = Some (EPrint e) -> False).
  { intros t e Hev. destruct t as [|ev t] using rev_ind.
    - rewrite app_nil_r. unfold head.
      change [EExists (Cfg.output_file_path cfg) false;
              EOpen (Cfg.output_file_path cfg); EPrintRequest (build_request cfg)]
        with ([EExists (Cfg.output_file_path cfg) false;
               EOpen (Cfg.output_file_path cfg)]
              ++ [EPrintRequest (build_request cfg)])%list.
      rewrite app_assoc, last_snoc. discriminate.
    - rewrite app_assoc, last_snoc. intros H. inversion H; subst.
      apply Forall_app in Hev as [_ Hev]. apply Forall_cons in Hev as [Hev _].
      destruct Hev as [Hev | [s Hev]]; discriminate. }
  destruct (PyNum.ceil_truediv _ _) as [rounds|e] eqn:Hceil; cbn [trace outcome].
  - pose proof (for_each_round_shape w cfg (Cfg.output_file_path cfg)
                  (build_request cfg) (range rounds) (opened cfg st))
      as (Hev & _).
    cbv zeta in Hev.
    destruct (for_each _ _ _) as [t fin [[]|e|]]; cbn [trace outcome] in *.
    + split; [intros _|reflexivity]. rewrite !app_assoc. apply last_snoc.
    + split; [discriminate|]. intros H. exfalso. eapply Hhead; eauto.
    + split; [discriminate|]. intros H. exfalso. eapply Hhead; eauto.
  - split; [discriminate|]. intros H. exfalso.
    apply (Hhead [] (saved_in cfg)); [constructor|]. by rewrite app_nil_r.
Qed.

Lemma saved_message_iff_returned_witness :
  last (trace (worker_main Examples.two_candidates (Examples.cfg_of 4 10 "smiles")
                 None Examples.no_files))
  = Some (EPrint "Saved in out.csv.").
Proof.
  apply (saved_message_iff_returned Examples.two_candidates
           (Examples.cfg_of 4 10 "smiles") None Examples.no_files eq_refl eq_refl).
  vm_compute. reflexivity.
Defined.

(** X20. Pass-through mode never consults the decoder, RDKit or the
    process pool: two environments with the same generator give the
    same round, so a text that is no molecule is written like any
    other. *)
Theorem pass_through_ignores_chemistry (w w' : World) (cfg : Cfg.t) (csv : string)
    (req : Req.t) (i : nat) (st : Proc) :
  Cfg.mol_repr cfg = "smiles" ->
  generate w i req = generate w' i req ->
  round w cfg csv req i st = round w' cfg csv req i st.
Proof.
  intros Hm Hg.
  destruct (generate w' i req) as [gens|e] eqn:Hg'.
  - destruct (map_result first_text gens) as [texts|e] eqn:Hf.
    + rewrite (round_smiles w cfg csv req i st gens texts Hm Hg Hf).
      rewrite (round_smiles w' cfg csv req i st gens texts Hm Hg' Hf).
      reflexivity.
    + rewrite (round_first_text_raises w cfg csv req i st gens e Hg Hf).
      rewrite (round_first_text_raises w' cfg csv req i st gens e Hg' Hf).
      reflexivity.
  - rewrite (round_generate_raises w cfg csv req i st e Hg).
    rewrite (round_generate_raises w' cfg csv req i st e Hg').
    reflexivity.
Qed.

Lemma pass_through_ignores_chemistry_witness :
  let cfg := Examples.cfg_of 1 1 "smiles" in
  round (Examples.answering ["garbage"]) cfg "out.csv" (build_request cfg) 0
        (opened cfg Examples.no_files)
  = round (Examples.pool_down ["garbage"]) cfg "out.csv" (build_request cfg) 0
          (opened cfg Examples.no_files).
Proof.
  cbv zeta.
  apply (pass_through_ignores_chemistry (Examples.answering ["garbage"])
           (Examples.pool_down ["garbage"]) (Examples.cfg_of 1 1 "smiles"));
    reflexivity.
Defined.
